(** * Logits processors of transformers.js: a shallow embedding

    The development follows the generation module of the repository
    (classes [LogitsProcessorList], [ForceTokensLogitsProcessor],
    [ForcedBOSTokenLogitsProcessor], [ForcedEOSTokenLogitsProcessor],
    [WhisperTimeStampLogitsProcessor], [NoRepeatNGramLogitsProcessor] and
    [RepetitionPenaltyLogitsProcessor]).

    Modelling conventions.
    - A JavaScript number is an IEEE-754 binary64 value, [spec_float] with
      precision 53 and maximal exponent 1024; [*], [/], [+] and [<] are the
      operations of [SpecFloat].
    - [logits.data] is a [Float32Array]: a computed value that is stored in
      it is rounded to binary32 ([fround]).  The other values the processors
      store are the constants [-Infinity] and [0], which this rounding
      leaves as they are.
    - Token ids, lengths and indices are integers ([Z]).
    - [logits.data] is a typed array: a list of numbers of fixed length.
      Reading outside the array yields [undefined] ([None]); writing outside
      the array does nothing.
    - A method that mutates the array in place is a function from the array
      before the call to the array after it; a method that can throw returns
      a [completion] which carries the array as it is when the method stops.
    - Rows of a batch are references into a heap of typed arrays, so that the
      same array may occur in several rows. *)

From Stdlib Require Import ZArith Bool Ascii Floats.SpecFloat.
From stdpp Require Import base tactics option list functions.
From stdpp Require Import strings pretty gmap.

Open Scope Z_scope.

(** ** JavaScript values *)

Module JS.

(** A property that may be absent ([undefined]), [null], or hold a value. *)
Inductive optional (A : Type) : Type :=
| undefined : optional A
| null : optional A
| value : A -> optional A.
Arguments undefined {A}.
Arguments null {A}.
Arguments value {A} _.

(** [x ?? d] *)
Definition nullish {A} (x : optional A) (d : A) : A :=
  match x with
  | value a => a
  | _ => d
  end.

(** How a normal or an abrupt completion leaves the mutated state. *)
Inductive completion (S : Type) : Type :=
| Return : S -> completion S
| Throw : S -> completion S.
Arguments Return {S} _.
Arguments Throw {S} _.

Definition state_of {S} (c : completion S) : S :=
  match c with
  | Return s => s
  | Throw s => s
  end.

Definition returns {S} (c : completion S) : bool :=
  match c with
  | Return _ => true
  | Throw _ => false
  end.

(** *** Numbers *)

Definition number : Type := spec_float.

Definition neg_Infinity : number := S754_infinity true.
Definition NaN : number := S754_nan.
(** The literal [0]. *)
Definition zero : number := S754_zero false.
(** The literal [1.0]. *)
Definition one : number := S754_finite false (2 ^ 52)%positive (-52).

Definition mul (x y : number) : number := SFmul 53 1024 x y.
Definition div (x y : number) : number := SFdiv 53 1024 x y.
Definition add (x y : number) : number := SFadd 53 1024 x y.
(** [x < y] and [x > y]; both are false when an operand is [NaN]. *)
Definition lt (x y : number) : bool := SFltb x y.
Definition gt (x y : number) : bool := SFltb y x.

(** What a [Float32Array] makes of a number that is stored in it
    ([Math.fround]): the nearest number that binary32 represents, ties to
    even, an infinity beyond the largest one; given as a binary64 number
    again, as a read returns it. *)
Definition fround (x : number) : number :=
  match x with
  | S754_finite s m e =>
      match binary_round 24 128 s m e with
      | S754_finite s' m' e' => binary_round 53 1024 s' m' e'
      | y => y
      end
  | _ => x
  end.

(** A number read from a cell of [logits.data]: a canonical binary64 value
    that binary32 represents. *)
Definition wf_number (x : number) : Prop :=
  valid_binary 53 1024 x = true /\ fround x = x.

(** The number that an integer denotes, for the examples. *)
Definition of_Z (z : Z) : number := binary_normalize 53 1024 z 0 false.

(** [Math.max(...xs)]: [-Infinity] for no argument, [NaN] as soon as one
    argument is [NaN], and [+0] is larger than [-0]. *)
Definition max2 (x y : number) : number :=
  match x, y with
  | S754_nan, _ | _, S754_nan => S754_nan
  | S754_zero sx, S754_zero sy => S754_zero (sx && sy)
  | _, _ => if SFltb x y then y else x
  end.

Definition Math_max (xs : list number) : number :=
  fold_left max2 xs neg_Infinity.

(** *** Integer-valued numbers that may be [NaN] *)

(** [a + b] where [b] may be [undefined] or [null]:
    [undefined] converts to [NaN], [null] to [0]. *)
Definition add_optional (a : Z) (b : optional Z) : option Z :=
  match b with
  | undefined => None
  | null => Some a
  | value z => Some (a + z)
  end.

(** [x + 1] on a possibly-[NaN] integer. *)
Definition succ_nan (x : option Z) : option Z := Z.succ <$> x.

(** [ToIntegerOrInfinity]: [NaN] becomes [0]. *)
Definition ToIntegerOrInfinity (x : option Z) : Z := default 0 x.

(** [ToNumber] of an array element: [undefined] converts to [NaN]. *)
Definition ToNumber (x : option number) : number := default NaN x.

(** *** Arrays of integers *)

(** [xs.length] *)
Definition length_of {A} (xs : list A) : Z := Z.of_nat (length xs).

(** A relative index as [slice] and [subarray] resolve it: a negative
    index counts from the end, and the result is clamped to the array. *)
Definition relative_index (len k : Z) : Z :=
  if k <? 0 then Z.max (len + k) 0 else Z.min k len.

(** [xs[i]] for an integer [i]. *)
Definition get {A} (xs : list A) (i : Z) : option A :=
  if 0 <=? i then xs !! Z.to_nat i else None.

(** The elements at the absolute positions [b <= i < e]. *)
Definition between {A} (xs : list A) (b e : Z) : list A :=
  take (Z.to_nat (e - b)) (drop (Z.to_nat b) xs).

(** [xs.slice(start)] and [xs.slice(start, end)]; [xs.subarray] resolves
    its bounds in the same way. *)
Definition slice {A} (xs : list A) (start : Z) (end_ : option Z) : list A :=
  let len := length_of xs in
  between xs (relative_index len start)
    (match end_ with
     | None => len
     | Some e => relative_index len e
     end).

(** *** Typed arrays *)

Definition TypedArray : Type := list number.

(** [a[i] = v]: ignored when [i] is not an index of [a]. *)
Definition set (a : TypedArray) (i : Z) (v : number) : TypedArray :=
  if 0 <=? i then <[Z.to_nat i := v]> a else a.

(** Writes [v] at the absolute positions [b <= i < e]. *)
Definition fill_between (a : TypedArray) (b e : Z) (v : number) : TypedArray :=
  imap (fun i x => if bool_decide (b <= Z.of_nat i < e) then v else x) a.

(** [a.fill(v)] *)
Definition fill (a : TypedArray) (v : number) : TypedArray :=
  fill_between a 0 (length_of a) v.

(** [a.subarray(begin).fill(v)] and [a.subarray(begin, end).fill(v)]:
    the view shares the storage of [a], so the fill is seen in [a]. *)
Definition subarray_fill (a : TypedArray) (begin : Z) (end_ : option Z)
    (v : number) : TypedArray :=
  let len := length_of a in
  fill_between a (relative_index len begin)
    (match end_ with
     | None => len
     | Some e => relative_index len e
     end) v.

End JS.

Import JS.

(** ** What the module imports *)

(** [log_softmax] comes from [utils.js], and [Math.exp] and [Math.log] are
    only specified up to the accuracy of the engine: the three are taken as
    parameters.  They read their argument and allocate their result. *)
Class Runtime := {
  log_softmax : TypedArray -> TypedArray;
  Math_exp : number -> number;
  Math_log : number -> number
}.

(** Modelled from the spec: [exists] of [utils.js] is not among the sources.
    The spec's "has an entry in the mapping" is read as: the value looked up
    is neither [undefined] nor [null]. *)
Definition exists_ {A} (x : optional A) : bool :=
  match x with
  | value _ => true
  | _ => false
  end.

(** ** LogitsProcessorList *)

(** A logits processor is a [Callable]: calling it runs its [_call] with the
    input ids and the logits of one row.  The call mutates [logits.data],
    and nothing else, and returns or throws. *)
Definition LogitsProcessor : Type :=
  list Z -> TypedArray -> completion TypedArray.

(** The rows of a batch are references to arrays. *)
Abbreviation ref := nat (only parsing).
Abbreviation Heap := (nat -> TypedArray) (only parsing).

Module LogitsProcessorList.

Record t := { processors : list LogitsProcessor }.

Definition constructor : t := {| processors := [] |}.

Definition push (this : t) (item : LogitsProcessor) : t :=
  {| processors := processors this ++ [item] |}.

Definition extend (this : t) (items : list LogitsProcessor) : t :=
  {| processors := processors this ++ items |}.

(** [this.processors.forEach(func => func(input_ids, logits))] *)
Fixpoint forEach (funcs : list LogitsProcessor) (input_ids : list Z)
    (data : TypedArray) : completion TypedArray :=
  match funcs with
  | [] => Return data
  | func :: rest =>
      match func input_ids data with
      | Return data' => forEach rest input_ids data'
      | Throw data' => Throw data'
      end
  end.

(** [for (let logits of batchedLogits) ...] *)
Fixpoint for_of (funcs : list LogitsProcessor) (input_ids : list Z)
    (batchedLogits : list ref) (h : Heap) : completion Heap :=
  match batchedLogits with
  | [] => Return h
  | logits :: rest =>
      match forEach funcs input_ids (h logits) with
      | Return data' => for_of funcs input_ids rest (<[logits := data']> h)
      | Throw data' => Throw (<[logits := data']> h)
      end
  end.

Definition _call (this : t) (input_ids : list Z) (batchedLogits : list ref)
    (h : Heap) : completion Heap :=
  for_of (processors this) input_ids batchedLogits h.

(** [[Symbol.iterator]()] *)
Definition iterator (this : t) : list LogitsProcessor := processors this.

End LogitsProcessorList.

(** The abstract method of the base class. *)
Module LogitsProcessorBase.
Definition _call : LogitsProcessor := fun input_ids data => Throw data.
End LogitsProcessorBase.

(** ** ForceTokensLogitsProcessor *)

Module ForceTokensLogitsProcessor.

(** [Object.fromEntries]: for a repeated key the last entry wins.  The
    value of a pair may itself be [null]. *)
Definition fromEntries (entries : list (Z * optional Z))
    : gmap Z (optional Z) :=
  fold_left (fun m kv => <[kv.1 := kv.2]> m) entries ∅.

(** [obj[key]]: [undefined] for a key that is not a property. *)
Definition property (m : gmap Z (optional Z)) (key : Z) : optional Z :=
  default undefined (m !! key).

Record t := { force_token_map : gmap Z (optional Z) }.

Definition constructor (forced_decoder_ids : optional (list (Z * optional Z)))
    : t :=
  {| force_token_map := fromEntries (nullish forced_decoder_ids []) |}.

Definition _call (this : t) (input_ids : list Z) (data : TypedArray)
    : TypedArray :=
  let map := property (force_token_map this) (length_of input_ids) in
  if exists_ map then
    match map with
    | value token => JS.set (JS.fill data neg_Infinity) token zero
    | _ => data
    end
  else data.

End ForceTokensLogitsProcessor.

(** ** ForcedBOSTokenLogitsProcessor *)

Module ForcedBOSTokenLogitsProcessor.

Record t := { bos_token_id : Z }.

Definition constructor (bos_token_id : Z) : t :=
  {| bos_token_id := bos_token_id |}.

Definition _call (this : t) (input_ids : list Z) (data : TypedArray)
    : TypedArray :=
  if length_of input_ids =? 1
  then JS.set (JS.fill data neg_Infinity) (bos_token_id this) zero
  else data.

End ForcedBOSTokenLogitsProcessor.

(** ** ForcedEOSTokenLogitsProcessor *)

Module ForcedEOSTokenLogitsProcessor.

Record t := { max_length : Z; forced_eos_token_id : Z }.

Definition constructor (max_length forced_eos_token_id : Z) : t :=
  {| max_length := max_length; forced_eos_token_id := forced_eos_token_id |}.

(** [throw Error("Not yet implemented")] *)
Definition _call (this : t) : LogitsProcessor :=
  fun input_ids data => Throw data.

End ForcedEOSTokenLogitsProcessor.

(** ** WhisperTimeStampLogitsProcessor *)

(** The object passed to the constructor.  [forced_decoder_ids] and
    [max_initial_timestamp_index] are optional properties. *)
Module generate_config.
Record t := {
  eos_token_id : Z;
  no_timestamps_token_id : Z;
  forced_decoder_ids : optional (list (Z * optional Z));
  max_initial_timestamp_index : optional Z
}.
End generate_config.

Module WhisperTimeStampLogitsProcessor.

Record t := {
  eos_token_id : Z;
  no_timestamps_token_id : Z;
  timestamp_begin : Z;
  begin_index : Z;
  max_initial_timestamp_index : optional Z
}.

(** A constructor call yields the instance or throws a [TypeError]. *)
Inductive constructed : Type :=
| Instance_ : t -> constructed
| TypeError : constructed.

(** [x === id] for a pair component [x] and a number [id]. *)
Definition strict_eq (x : optional Z) (id : Z) : bool :=
  match x with
  | value z => z =? id
  | _ => false
  end.

Definition constructor (cfg : generate_config.t) : constructed :=
  let no_timestamps_token_id := generate_config.no_timestamps_token_id cfg in
  let begin_index :=
    length_of (match generate_config.forced_decoder_ids cfg with
               | value ids => ids     (* an array is truthy, also when empty *)
               | _ => []
               end) + 2 in
  match generate_config.forced_decoder_ids cfg with
  | undefined | null => TypeError     (* [.slice] of [undefined] or [null] *)
  | value ids =>
      match slice ids (-1) None with
      | [] => TypeError               (* [undefined[1]] *)
      | entry :: _ =>
          Instance_
            {| eos_token_id := generate_config.eos_token_id cfg;
               no_timestamps_token_id := no_timestamps_token_id;
               timestamp_begin := no_timestamps_token_id + 1;
               begin_index :=
                 if strict_eq entry.2 no_timestamps_token_id
                 then begin_index - 1 else begin_index;
               max_initial_timestamp_index :=
                 generate_config.max_initial_timestamp_index cfg |}
      end
  end.

(** [x >= n] where [x] may be [undefined]. *)
Definition ge_undefined (x : option Z) (n : Z) : bool :=
  match x with
  | Some z => n <=? z
  | None => false
  end.

Definition last_was_timestamp (this : t) (input_ids : list Z) : bool :=
  let seq := slice input_ids (begin_index this) None in
  (1 <=? length_of seq)
  && ge_undefined (get seq (length_of seq - 1)) (timestamp_begin this).

Definition penultimate_was_timestamp (this : t) (input_ids : list Z) : bool :=
  let seq := slice input_ids (begin_index this) None in
  (length_of seq <? 2)
  || ge_undefined (get seq (length_of seq - 2)) (timestamp_begin this).

(** "timestamps have to appear in pairs, except directly before
    eos_token; mask logits accordingly" *)
Definition mask_pairs (this : t) (input_ids : list Z) (data : TypedArray)
    : TypedArray :=
  if last_was_timestamp this input_ids then
    if penultimate_was_timestamp this input_ids
    then subarray_fill data (timestamp_begin this) None neg_Infinity
    else subarray_fill data 0 (Some (eos_token_id this)) neg_Infinity
  else data.

(** "apply the `max_initial_timestamp` option": the guard is
    [!== null], which [undefined] passes. *)
Definition apply_max_initial_timestamp (this : t) (input_ids : list Z)
    (data : TypedArray) : TypedArray :=
  if (length_of input_ids =? begin_index this)
     && negb (match max_initial_timestamp_index this with
              | null => true
              | _ => false
              end)
  then
    let last_allowed :=
      add_optional (timestamp_begin this) (max_initial_timestamp_index this) in
    subarray_fill data (ToIntegerOrInfinity (succ_nan last_allowed)) None
      neg_Infinity
  else data.

(** "if sum of probability over timestamps is above any other token,
    sample timestamp".  [reduce] without an initial value throws a
    [TypeError] on an empty array. *)
Definition sample_timestamp `{Runtime} (this : t) (data : TypedArray)
    : completion TypedArray :=
  let logprobs := log_softmax data in
  match Math_exp <$> slice logprobs (timestamp_begin this) None with
  | [] => Throw data
  | p :: ps =>
      let timestamp_logprob := Math_log (fold_left add ps p) in
      let max_text_token_logprob :=
        Math_max (slice logprobs 0 (Some (timestamp_begin this))) in
      if gt timestamp_logprob max_text_token_logprob
      then Return (subarray_fill data 0 (Some (timestamp_begin this))
                     neg_Infinity)
      else Return data
  end.

Definition _call `{Runtime} (this : t) : LogitsProcessor :=
  fun input_ids data =>
  let data := JS.set data (no_timestamps_token_id this) neg_Infinity in
  if length_of input_ids =? begin_index this - 1 then
    Return (JS.set (JS.fill data neg_Infinity) (timestamp_begin this) zero)
  else
    let data := mask_pairs this input_ids data in
    let data := apply_max_initial_timestamp this input_ids data in
    sample_timestamp this data.

End WhisperTimeStampLogitsProcessor.

(** ** NoRepeatNGramLogitsProcessor *)

(** [JSON.stringify] of an array of integers; an element of the array that
    is [undefined] is printed as [null]. *)
Definition stringify_element (x : option Z) : string :=
  match x with
  | Some z => pretty z
  | None => "null"
  end.

Fixpoint stringify_elements (xs : list (option Z)) : string :=
  match xs with
  | [] => "]"
  | x :: rest =>
      match rest with
      | [] => stringify_element x +:+ "]"
      | _ :: _ => stringify_element x +:+ "," +:+ stringify_elements rest
      end
  end.

Definition JSON_stringify (xs : list (option Z)) : string :=
  "[" +:+ stringify_elements xs.

(** The n-grams [getNgrams] collects before it groups them: one for each
    [j < curLen + 1 - ngramSize], made of [prevInputIds[j + k]] for
    [k < ngramSize]. *)
Definition ngrams_of (ngramSize : Z) (prevInputIds : list Z)
    : list (list (option Z)) :=
  let curLen := length_of prevInputIds in
  (fun j =>
     (fun k => prevInputIds !! (j + k)%nat) <$> seq 0 (Z.to_nat ngramSize))
    <$> seq 0 (Z.to_nat (curLen + 1 - ngramSize)).

Definition getNgrams (ngramSize : Z) (prevInputIds : list Z)
    : gmap string (list (option Z)) :=
  fold_left
    (fun generatedNgram ngram =>
       let prevNgram := slice ngram 0 (Some (length_of ngram - 1)) in
       let prevNgramKey := JSON_stringify prevNgram in
       let prevNgramValue := default [] (generatedNgram !! prevNgramKey) in
       <[prevNgramKey :=
           prevNgramValue ++ [mjoin (get ngram (length_of ngram - 1))]]>
         generatedNgram)
    (ngrams_of ngramSize prevInputIds) ∅.

Definition getGeneratedNgrams (bannedNgrams : gmap string (list (option Z)))
    (prevInputIds : list Z) (ngramSize : Z) : list (option Z) :=
  let ngramIdx :=
    slice prevInputIds (length_of prevInputIds + 1 - ngramSize)
      (Some (length_of prevInputIds)) in
  default [] (bannedNgrams !! JSON_stringify (Some <$> ngramIdx)).

Definition calcBannedNgramTokens (ngramSize : Z) (prevInputIds : list Z)
    : list (option Z) :=
  if length_of prevInputIds + 1 <? ngramSize then []
  else getGeneratedNgrams (getNgrams ngramSize prevInputIds)
         prevInputIds ngramSize.

Module NoRepeatNGramLogitsProcessor.

Record t := { no_repeat_ngram_size : Z }.

Definition constructor (no_repeat_ngram_size : Z) : t :=
  {| no_repeat_ngram_size := no_repeat_ngram_size |}.

(** [logits.data[token] = -Infinity]; a [token] that is [undefined] names
    no element of the array. *)
Definition ban (data : TypedArray) (token : option Z) : TypedArray :=
  match token with
  | Some i => JS.set data i neg_Infinity
  | None => data
  end.

Definition _call (this : t) (input_ids : list Z) (data : TypedArray)
    : TypedArray :=
  let bannedTokens :=
    calcBannedNgramTokens (no_repeat_ngram_size this) input_ids in
  fold_left ban bannedTokens data.

End NoRepeatNGramLogitsProcessor.

(** ** RepetitionPenaltyLogitsProcessor *)

Module RepetitionPenaltyLogitsProcessor.

Record t := { penalty : number }.

Definition constructor (penalty : number) : t := {| penalty := penalty |}.

(** The body of the loop, for one [input_id].  The product or quotient is
    computed in binary64 and rounded when it is stored. *)
Definition penalise (this : t) (data : TypedArray) (input_id : Z)
    : TypedArray :=
  let x := ToNumber (get data input_id) in
  if lt x zero
  then JS.set data input_id (fround (mul x (penalty this)))
  else JS.set data input_id (fround (div x (penalty this))).

Definition _call (this : t) (input_ids : list Z) (data : TypedArray)
    : TypedArray :=
  fold_left (penalise this) input_ids data.

End RepetitionPenaltyLogitsProcessor.

(** The processors as elements of a [LogitsProcessorList]: a method that
    cannot throw always returns. *)
Definition returning (f : list Z -> TypedArray -> TypedArray)
    : LogitsProcessor :=
  fun input_ids data => Return (f input_ids data).

(** ** The pairing rule in the words of its description *)

(** The history from [begin_index] onward, and what the description calls
    [last_was_timestamp] and [penultimate_was_timestamp]. *)
Module Pairing.
Import WhisperTimeStampLogitsProcessor.

Definition seq (this : t) (input_ids : list Z) : list Z :=
  drop (Z.to_nat (begin_index this)) input_ids.

(** [seq] is not empty and its last element is a timestamp. *)
Definition last_is_timestamp (this : t) (input_ids : list Z) : Prop :=
  exists x, last (seq this input_ids) = Some x /\ timestamp_begin this <= x.

(** [seq] has fewer than two elements, or its second-to-last element is a
    timestamp. *)
Definition penultimate_is_timestamp (this : t) (input_ids : list Z) : Prop :=
  (length (seq this input_ids) < 2)%nat
  \/ exists x, seq this input_ids !! (length (seq this input_ids) - 2)%nat
               = Some x
               /\ timestamp_begin this <= x.
End Pairing.

(** A runtime for the examples: the functions that the properties below do
    not depend on are identities. *)
Definition example_runtime : Runtime :=
  {| log_softmax := fun d => d;
     Math_exp := fun x => x;
     Math_log := fun x => x |}.

(** ** The repetition penalty in the words of its description *)

Module Penalty.
Import RepetitionPenaltyLogitsProcessor.

(** The transform of one score: multiplied by the penalty when negative,
    divided by it otherwise, and rounded as the array stores it. *)
Definition transform (penalty x : number) : number :=
  fround (if lt x zero then mul x penalty else div x penalty).

(** The array the description asks for: the transform applied once at
    every index that occurs in the history, however often it occurs. *)
Definition once_per_index (this : t) (input_ids : list Z)
    (data : TypedArray) : TypedArray :=
  imap (fun i x =>
          if bool_decide (Z.of_nat i ∈ input_ids)
          then transform (penalty this) x else x) data.
End Penalty.

(** ** Shifts of a binary64 mantissa *)

(** [m] followed by [k] zero bits. *)
Fixpoint shl (k : nat) (m : positive) : positive :=
  match k with
  | O => m
  | S k => xO (shl k m)
  end.

(** [k] steps of the right shift that rounding uses. *)
Fixpoint shr_n (k : nat) (r : shr_record) : shr_record :=
  match k with
  | O => r
  | S k => shr_n k (shr_1 r)
  end.

(** ** Characters of a printed array *)

(** Every character of [s] satisfies [p]. *)
Fixpoint string_forall (p : ascii -> bool) (s : string) : bool :=
  match s with
  | EmptyString => true
  | String c s' => p c && string_forall p s'
  end.

(** The characters that separate and close the elements. *)
Definition separator (c : ascii) : bool :=
  bool_decide (c = ","%char) || bool_decide (c = "]"%char).

(** The characters of a printed integer. *)
Definition numeric (c : ascii) : bool :=
  bool_decide
    (c ∈ ["-"; "0"; "1"; "2"; "3"; "4"; "5"; "6"; "7"; "8"; "9"]%char).

(** ** The banned tokens in the words of the description *)

Module NGram.

(** The most recent [n - 1] elements of the history. *)
Definition recent (n : nat) (input_ids : list Z) : list Z :=
  drop (length input_ids - (n - 1)) input_ids.

(** The window of [n] elements that starts at position [j]. *)
Definition window (n j : nat) (input_ids : list Z) : list Z :=
  take n (drop j input_ids).

(** [token] is banned: some window of [n] elements of the history starts
    with the most recent [n - 1] elements and ends with [token]. *)
Definition banned (n : nat) (input_ids : list Z) (token : Z) : Prop :=
  exists j : nat,
    (j + n <= length input_ids)%nat
    /\ take (n - 1) (window n j input_ids) = recent n input_ids
    /\ last (window n j input_ids) = Some token.

(** The tokens that followed the prefix printed as [key], in the order of
    the n-grams. *)
Definition followers (key : string) (ngrams : list (list (option Z)))
    : list (option Z) :=
  (fun ngram => mjoin (get ngram (length_of ngram - 1)))
    <$> filter (fun ngram =>
                  JSON_stringify (slice ngram 0 (Some (length_of ngram - 1)))
                  = key) ngrams.

End NGram.

(** ** A small vocabulary for the examples *)

(** Six tokens: text tokens 0 and 1 (1 is the end of sequence), 2 is
    [<|notimestamps|>], and 3, 4, 5 are timestamps.  One token is forced. *)
Module Example.

Definition config (max_initial_timestamp_index : optional Z)
    : generate_config.t :=
  {| generate_config.eos_token_id := 1;
     generate_config.no_timestamps_token_id := 2;
     generate_config.forced_decoder_ids := value [(1, value 0)];
     generate_config.max_initial_timestamp_index :=
       max_initial_timestamp_index |}.

(** What the constructor makes of [config]. *)
Definition processor (max_initial_timestamp_index : optional Z)
    : WhisperTimeStampLogitsProcessor.t :=
  {| WhisperTimeStampLogitsProcessor.eos_token_id := 1;
     WhisperTimeStampLogitsProcessor.no_timestamps_token_id := 2;
     WhisperTimeStampLogitsProcessor.timestamp_begin := 3;
     WhisperTimeStampLogitsProcessor.begin_index := 3;
     WhisperTimeStampLogitsProcessor.max_initial_timestamp_index :=
       max_initial_timestamp_index |}.

Definition scores : TypedArray :=
  [of_Z 5; of_Z 6; of_Z 7; of_Z 8; of_Z 9; of_Z 4].

(** A chain that holds the repetition penalty 2 twice, and a heap with
    two rows. *)
Definition halve : LogitsProcessor :=
  returning (RepetitionPenaltyLogitsProcessor._call
               (RepetitionPenaltyLogitsProcessor.constructor (of_Z 2))).

Definition chain : LogitsProcessorList.t :=
  LogitsProcessorList.push
    (LogitsProcessorList.push LogitsProcessorList.constructor halve) halve.

Definition heap : Heap :=
  fun l => match l with
           | O => [of_Z 8; of_Z (-3)]
           | _ => [of_Z 4; of_Z 2; of_Z 6]
           end.

(** A chain that holds the timestamp processor, which throws on an array
    without timestamps, before the penalty; and a heap whose arrays all
    have the six scores. *)
Definition timestamps_then_halve : LogitsProcessorList.t :=
  LogitsProcessorList.extend LogitsProcessorList.constructor
    [@WhisperTimeStampLogitsProcessor._call example_runtime (processor null);
     halve].

Definition vocabulary_heap : Heap := fun _ => scores.

End Example.

(** ** GenerationConfig *)

Module GenerationConfig.

(** The values an option can hold. *)
#[warnings="-register-all"] Inductive JsValue : Type :=
| JUndefined : JsValue
| JNull : JsValue
| JBool : bool -> JsValue
| JNumber : number -> JsValue
| JString : string -> JsValue
| JArray : list JsValue -> JsValue
| JObject : list (string * JsValue) -> JsValue.

(** [obj.key]: [undefined] when the object has no such property. *)
Definition prop (obj : gmap string JsValue) (key : string) : JsValue :=
  default JUndefined (obj !! key).

(** [x ?? d] *)
Definition coalesce (x d : JsValue) : JsValue :=
  match x with
  | JUndefined | JNull => d
  | _ => x
  end.

(** The options in the order in which the constructor assigns them, each
    with the value on the right of its [??]. *)
Definition defaults : list (string * JsValue) :=
  [ ("max_length", JNumber (of_Z 20));
    ("max_new_tokens", JNull);
    ("min_length", JNumber (of_Z 0));
    ("min_new_tokens", JNull);
    ("early_stopping", JBool false);
    ("max_time", JNull);
    ("do_sample", JBool false);
    ("num_beams", JNumber (of_Z 1));
    ("num_beam_groups", JNumber (of_Z 1));
    ("penalty_alpha", JNull);
    ("use_cache", JBool true);
    ("temperature", JNumber (of_Z 1));
    ("top_k", JNumber (of_Z 50));
    ("top_p", JNumber (of_Z 1));
    ("typical_p", JNumber (of_Z 1));
    ("epsilon_cutoff", JNumber (of_Z 0));
    ("eta_cutoff", JNumber (of_Z 0));
    ("diversity_penalty", JNumber (of_Z 0));
    ("repetition_penalty", JNumber (of_Z 1));
    ("encoder_repetition_penalty", JNumber (of_Z 1));
    ("length_penalty", JNumber (of_Z 1));
    ("no_repeat_ngram_size", JNumber (of_Z 0));
    ("bad_words_ids", JNull);
    ("force_words_ids", JNull);
    ("renormalize_logits", JBool false);
    ("constraints", JNull);
    ("forced_bos_token_id", JNull);
    ("forced_eos_token_id", JNull);
    ("remove_invalid_values", JBool false);
    ("exponential_decay_length_penalty", JNull);
    ("suppress_tokens", JNull);
    ("begin_suppress_tokens", JNull);
    ("forced_decoder_ids", JNull);
    ("num_return_sequences", JNumber (of_Z 1));
    ("output_attentions", JBool false);
    ("output_hidden_states", JBool false);
    ("output_scores", JBool false);
    ("return_dict_in_generate", JBool false);
    ("pad_token_id", JNull);
    ("bos_token_id", JNull);
    ("eos_token_id", JNull);
    ("encoder_no_repeat_ngram_size", JNumber (of_Z 0));
    ("decoder_start_token_id", JNull);
    ("generation_kwargs", JObject []) ]%string.

(** [this.key = kwargs.key ?? d] *)
Definition assign (kwargs : gmap string JsValue)
    (this : gmap string JsValue) (kd : string * JsValue)
    : gmap string JsValue :=
  <[kd.1 := coalesce (prop kwargs kd.1) kd.2]> this.

(** [constructor(kwargs = {})]: the default [{}] stands in for an absent
    argument only; reading a property of [null] throws a [TypeError]
    ([None]). *)
Definition constructor (kwargs : optional (gmap string JsValue))
    : option (gmap string JsValue) :=
  match kwargs with
  | undefined => Some (fold_left (assign ∅) defaults ∅)
  | null => None
  | value obj => Some (fold_left (assign obj) defaults ∅)
  end.

End GenerationConfig.

(** ** Arrays whose scores were only suppressed *)

(** Each element of [b] is the element of [a] at the same index, or
    negative infinity. *)
Definition kept_or_suppressed (a b : TypedArray) : Prop :=
  forall i x, get a i = Some x ->
    get b i = Some x \/ get b i = Some neg_Infinity.

(** ** The calls of a batch, one after the other *)

Module Schedule.

(** One call of a processor on the array of a row; nothing is called any
    more once a call has thrown. *)
Definition invoke (input_ids : list Z) (c : completion Heap)
    (call : nat * LogitsProcessor) : completion Heap :=
  match c with
  | Return h =>
      match call.2 input_ids (h call.1) with
      | Return data' => Return (<[call.1 := data']> h)
      | Throw data' => Throw (<[call.1 := data']> h)
      end
  | Throw h => Throw h
  end.

(** The calls in the order of the description: the rows in the order of
    the batch and, for each row, the processors from first to last. *)
Definition calls (funcs : list LogitsProcessor) (batchedLogits : list nat)
    : list (nat * LogitsProcessor) :=
  flat_map (fun logits => (fun func => (logits, func)) <$> funcs)
    batchedLogits.

Definition run (input_ids : list Z) (cs : list (nat * LogitsProcessor))
    (h : Heap) : completion Heap :=
  fold_left (invoke input_ids) cs (Return h).

(** Two runs end alike: both return or both throw, and every array is the
    same in both. *)
Definition same_outcome (c1 c2 : completion Heap) : Prop :=
  returns c1 = returns c2 /\ forall l, state_of c1 l = state_of c2 l.

(** What the processors make of one array when they return. *)
Definition through (funcs : list LogitsProcessor) (input_ids : list Z)
    (data : TypedArray) : TypedArray :=
  fold_left (fun d func => state_of (func input_ids d)) funcs data.

End Schedule.

(** * Properties *)

(** ** Typed arrays *)

Section typed_arrays.
Implicit Types (a : TypedArray) (i j b e : Z) (v x : number).

Lemma length_set a i v : length (JS.set a i v) = length a.
Proof. unfold JS.set. case_match; [apply length_insert | done]. Qed.

Lemma length_fill_between a b e v : length (fill_between a b e v) = length a.
Proof. apply length_imap. Qed.

Lemma length_fill a v : length (JS.fill a v) = length a.
Proof. apply length_fill_between. Qed.

Lemma length_subarray_fill a b oe v :
  length (subarray_fill a b oe v) = length a.
Proof. apply length_fill_between. Qed.

Lemma get_Some_range {A} (xs : list A) i y :
  get xs i = Some y -> 0 <= i < length_of xs.
Proof.
  unfold get, length_of. case_match; [|done].
  intros Hl%lookup_lt_Some. lia.
Qed.

Lemma get_range_Some {A} (xs : list A) i :
  0 <= i < length_of xs -> is_Some (get xs i).
Proof.
  unfold get, length_of. intros [? ?].
  rewrite (proj2 (Z.leb_le 0 i)) by done.
  apply lookup_lt_is_Some. lia.
Qed.

Lemma get_set_eq a i v x : get a i = Some x -> get (JS.set a i v) i = Some v.
Proof.
  unfold get, JS.set. case_match; [|done].
  intros Hl%lookup_lt_Some. by apply list_lookup_insert_eq.
Qed.

Lemma get_set_ne a i j v : i <> j -> get (JS.set a i v) j = get a j.
Proof.
  unfold get, JS.set. intros Hne.
  destruct (0 <=? j) eqn:Hj; [|done].
  destruct (0 <=? i) eqn:Hi; [|done].
  apply list_lookup_insert_ne. lia.
Qed.

Lemma get_set_outside a i v : get a i = None -> JS.set a i v = a.
Proof.
  unfold get, JS.set. case_match; [|done].
  intros Hl%lookup_ge_None. by apply list_insert_ge.
Qed.

Lemma get_fill_between a b e v i :
  get (fill_between a b e v) i
  = (fun x => if bool_decide (b <= i < e) then v else x) <$> get a i.
Proof.
  unfold get, fill_between. destruct (0 <=? i) eqn:Hi; [|done].
  rewrite list_lookup_imap. rewrite Z2Nat.id by lia. done.
Qed.

Lemma get_fill a v i : get (JS.fill a v) i = (fun _ => v) <$> get a i.
Proof.
  unfold JS.fill. rewrite get_fill_between.
  destruct (get a i) as [x|] eqn:Hx; [|done]. simpl.
  apply get_Some_range in Hx. by rewrite bool_decide_eq_true_2.
Qed.

(** For a begin index that is not negative, [subarray(begin).fill(v)]
    overwrites exactly the elements from [begin] on. *)
Lemma get_subarray_fill_from a b v i :
  0 <= b ->
  get (subarray_fill a b None v) i
  = (fun x => if bool_decide (b <= i) then v else x) <$> get a i.
Proof.
  intros Hb. unfold subarray_fill. rewrite get_fill_between.
  destruct (get a i) as [x|] eqn:Hx; [|done]. simpl.
  apply get_Some_range in Hx. f_equal. unfold relative_index.
  rewrite (proj2 (Z.ltb_ge b 0)) by done.
  repeat case_bool_decide; try done; lia.
Qed.

(** For an end index that is not negative, [subarray(0, end).fill(v)]
    overwrites exactly the elements before [end]. *)
Lemma get_subarray_fill_upto a e v i :
  0 <= e ->
  get (subarray_fill a 0 (Some e) v) i
  = (fun x => if bool_decide (i < e) then v else x) <$> get a i.
Proof.
  intros He. unfold subarray_fill. rewrite get_fill_between.
  destruct (get a i) as [x|] eqn:Hx; [|done]. simpl.
  apply get_Some_range in Hx. f_equal. unfold relative_index.
  rewrite (proj2 (Z.ltb_ge e 0)) by done. change (0 <? 0) with false.
  cbv iota. repeat case_bool_decide; try done; lia.
Qed.

(** Two arrays with the same elements are the same array. *)
Lemma array_eq {A} (xs ys : list A) :
  (forall i, get xs i = get ys i) -> xs = ys.
Proof.
  intros H. apply list_eq. intros n.
  specialize (H (Z.of_nat n)). unfold get in H.
  rewrite (proj2 (Z.leb_le 0 (Z.of_nat n))) in H by lia.
  by rewrite Nat2Z.id in H.
Qed.

Lemma fill_set a i w v : JS.fill (JS.set a i w) v = JS.fill a v.
Proof.
  apply array_eq. intros j. rewrite !get_fill.
  destruct (decide (i = j)) as [->|Hne]; [|by rewrite get_set_ne].
  destruct (get a j) as [x|] eqn:Hx.
  - by rewrite (get_set_eq _ _ _ _ Hx).
  - rewrite get_set_outside by done. by rewrite Hx.
Qed.

End typed_arrays.

(** ** ForceTokensLogitsProcessor *)

Section force_tokens.
Import ForceTokensLogitsProcessor.

(** The map holds, for each step, the token of the last pair that names
    the step. *)
Lemma fromEntries_lookup (entries : list (Z * optional Z)) (k : Z) :
  fromEntries entries !! k
  = snd <$> last (filter (fun kv => kv.1 = k) entries).
Proof.
  unfold fromEntries.
  induction entries as [|kv entries IH] using rev_ind; [done|].
  rewrite fold_left_app, filter_app. simpl.
  destruct (decide (kv.1 = k)) as [<-|Hne].
  - rewrite lookup_insert_eq.
    rewrite filter_cons_True, filter_nil by done. by rewrite last_snoc.
  - rewrite lookup_insert_ne by done.
    rewrite filter_cons_False, filter_nil by done.
    by rewrite app_nil_r.
Qed.

(** C8. When the length of the history is a step of the forcing map with
    token [t], the call leaves [0] at index [t] and negative infinity at
    every other index; when the step has no token, every element keeps its
    value.  The array keeps its length. *)
Theorem force_tokens_call_spec
    (forced_decoder_ids : optional (list (Z * optional Z)))
    (input_ids : list Z) (data : TypedArray) :
  let this := constructor forced_decoder_ids in
  length (_call this input_ids data) = length data
  /\ forall i x, get data i = Some x ->
       get (_call this input_ids data) i
       = Some (match force_token_map this !! length_of input_ids with
               | Some (value t) =>
                   if decide (i = t) then zero else neg_Infinity
               | _ => x
               end).
Proof.
  intros this. unfold _call, property.
  destruct (force_token_map this !! length_of input_ids) as [[| |t]|];
    simpl; try done.
  split; [by rewrite length_set, length_fill|].
  intros i x Hx. case_decide as Hi.
  - subst t. eapply get_set_eq. by rewrite get_fill, Hx.
  - rewrite get_set_ne by done. by rewrite get_fill, Hx.
Qed.

Lemma force_tokens_call_spec_witness :
  get (_call (constructor (value [(1, value 2); (2, null)]))
         [7] [of_Z 8; of_Z (-3); of_Z 1]) 2 = Some zero.
Proof.
  exact (proj2 (force_tokens_call_spec (value [(1, value 2); (2, null)])
                  [7] [of_Z 8; of_Z (-3); of_Z 1]) 2 (of_Z 1) eq_refl).
Defined.

(** Without an entry for the step the array is returned as it is. *)
Lemma force_tokens_call_no_entry this (input_ids : list Z) (data : TypedArray) :
  force_token_map this !! length_of input_ids = None ->
  _call this input_ids data = data.
Proof. intros H. unfold _call, property. by rewrite H. Qed.

End force_tokens.

(** ** WhisperTimeStampLogitsProcessor: the constructor *)

Section whisper_constructor.
Import WhisperTimeStampLogitsProcessor.

(** [xs.slice(-1)] holds the last element, if there is one. *)
Lemma slice_last {A} (xs : list A) :
  slice xs (-1) None = match last xs with Some x => [x] | None => [] end.
Proof.
  unfold slice, between, relative_index, length_of. simpl.
  destruct xs as [|x0 xs] using rev_ind; [done|].
  rewrite last_snoc, length_app. simpl.
  replace (Z.to_nat (Z.max _ 0)) with (length xs) by lia.
  rewrite drop_app_length.
  replace (Z.to_nat _) with 1%nat by lia. done.
Qed.

(** What a successful construction stores. *)
Lemma constructor_Instance cfg this :
  constructor cfg = Instance_ this ->
  exists ids entry,
    generate_config.forced_decoder_ids cfg = value ids
    /\ last ids = Some entry
    /\ eos_token_id this = generate_config.eos_token_id cfg
    /\ no_timestamps_token_id this = generate_config.no_timestamps_token_id cfg
    /\ timestamp_begin this = generate_config.no_timestamps_token_id cfg + 1
    /\ begin_index this
       = (if strict_eq entry.2 (generate_config.no_timestamps_token_id cfg)
          then length_of ids + 2 - 1 else length_of ids + 2)
    /\ max_initial_timestamp_index this
       = generate_config.max_initial_timestamp_index cfg.
Proof.
  unfold constructor.
  destruct (generate_config.forced_decoder_ids cfg) as [| |ids]; try done.
  rewrite slice_last. destruct (last ids) as [entry|] eqn:Hlast; [|done].
  intros [= <-]. exists ids, entry. simpl. repeat split; done.
Qed.

Lemma constructor_timestamp_begin cfg this :
  constructor cfg = Instance_ this ->
  timestamp_begin this = no_timestamps_token_id this + 1.
Proof.
  intros (ids & entry & _ & _ & _ & -> & -> & _)%constructor_Instance. done.
Qed.

(** C10. The constructor throws a [TypeError] exactly when
    [forced_decoder_ids] is absent, [null] or the empty list, and it
    yields an instance exactly when [forced_decoder_ids] is a list that is
    not empty. *)
Theorem constructor_needs_forced_decoder_ids (cfg : generate_config.t) :
  (constructor cfg = TypeError
   <-> generate_config.forced_decoder_ids cfg = undefined
       \/ generate_config.forced_decoder_ids cfg = null
       \/ generate_config.forced_decoder_ids cfg = value [])
  /\ ((exists this, constructor cfg = Instance_ this)
      <-> exists entries,
            generate_config.forced_decoder_ids cfg = value entries
            /\ entries <> []).
Proof.
  unfold constructor.
  destruct (generate_config.forced_decoder_ids cfg) as [| |ids] eqn:Hf.
  - split; [naive_solver|]. split; [by intros [? ?]|by intros (? & ? & ?)].
  - split; [naive_solver|]. split; [by intros [? ?]|by intros (? & ? & ?)].
  - rewrite slice_last. destruct ids as [|e ids] using rev_ind.
    + simpl. split; [naive_solver|].
      split; [by intros [? ?]|]. intros (? & [= <-] & ?). done.
    + rewrite last_snoc. split.
      * split; [done|]. intros [?|[?|[= Hnil]]]; try done.
        by destruct ids.
      * split; [|by eauto]. intros _. exists (ids ++ [e]).
        split; [done|]. by destruct ids.
Qed.

Lemma constructor_needs_forced_decoder_ids_witness :
  constructor {| generate_config.eos_token_id := 1;
                 generate_config.no_timestamps_token_id := 2;
                 generate_config.forced_decoder_ids := value [];
                 generate_config.max_initial_timestamp_index := value 1 |}
  = TypeError.
Proof.
  apply (proj1 (constructor_needs_forced_decoder_ids _)).
  right. right. reflexivity.
Defined.

End whisper_constructor.

(** ** WhisperTimeStampLogitsProcessor: the call *)

Section whisper_call.
Import WhisperTimeStampLogitsProcessor.
Context `{Runtime}.

(** An element that is negative infinity stays so under the fills. *)
Lemma fill_between_suppressed (a : TypedArray) b e i :
  get a i = Some neg_Infinity ->
  get (fill_between a b e neg_Infinity) i = Some neg_Infinity.
Proof. intros Hi. rewrite get_fill_between, Hi. simpl. by case_bool_decide. Qed.

Lemma mask_pairs_suppressed this input_ids (data : TypedArray) i :
  get data i = Some neg_Infinity ->
  get (mask_pairs this input_ids data) i = Some neg_Infinity.
Proof.
  intros Hi. unfold mask_pairs, subarray_fill.
  repeat case_match; auto using fill_between_suppressed.
Qed.

Lemma apply_max_initial_timestamp_suppressed this input_ids
    (data : TypedArray) i :
  get data i = Some neg_Infinity ->
  get (apply_max_initial_timestamp this input_ids data) i
  = Some neg_Infinity.
Proof.
  intros Hi. unfold apply_max_initial_timestamp, subarray_fill.
  case_match; auto using fill_between_suppressed.
Qed.

Lemma sample_timestamp_suppressed this (data : TypedArray) i :
  get data i = Some neg_Infinity ->
  get (state_of (sample_timestamp this data)) i = Some neg_Infinity.
Proof.
  intros Hi. unfold sample_timestamp, subarray_fill.
  repeat case_match; simpl; auto using fill_between_suppressed.
Qed.

(** C4. For an instance made by the constructor, and an array that has an
    element at [no_timestamps_token_id], that element is negative infinity
    when the call stops, on every path: whether it returns from the forcing
    branch, returns at the end, or throws in the last step. *)
Theorem no_timestamps_token_suppressed cfg this
    (input_ids : list Z) (data : TypedArray) (x : number) :
  constructor cfg = Instance_ this ->
  get data (no_timestamps_token_id this) = Some x ->
  get (state_of (_call this input_ids data)) (no_timestamps_token_id this)
  = Some neg_Infinity.
Proof.
  intros Hnew%constructor_timestamp_begin Hx. unfold _call.
  pose proof (get_set_eq _ _ neg_Infinity _ Hx) as Hset.
  case_match.
  - simpl. rewrite get_set_ne by lia. by rewrite get_fill, Hset.
  - by apply sample_timestamp_suppressed,
      apply_max_initial_timestamp_suppressed, mask_pairs_suppressed.
Qed.

(** C5. For an instance made by the constructor, [timestamp_begin] is
    [no_timestamps_token_id + 1]; and when the history has
    [begin_index - 1] elements the call returns at once with the array
    filled with negative infinity and then [0] written at
    [timestamp_begin]: no later step, and nothing of the runtime, takes
    part in the result. *)
Theorem first_token_is_timestamp cfg this
    (input_ids : list Z) (data : TypedArray) :
  constructor cfg = Instance_ this ->
  length_of input_ids = begin_index this - 1 ->
  timestamp_begin this = no_timestamps_token_id this + 1
  /\ _call this input_ids data
     = Return (JS.set (JS.fill data neg_Infinity) (timestamp_begin this) zero)
  /\ forall i x, get data i = Some x ->
       get (state_of (_call this input_ids data)) i
       = Some (if decide (i = timestamp_begin this)
               then zero else neg_Infinity).
Proof.
  intros Hnew%constructor_timestamp_begin Hlen.
  assert (_call this input_ids data
          = Return (JS.set (JS.fill data neg_Infinity)
                      (timestamp_begin this) zero)) as ->.
  { unfold _call. rewrite (proj2 (Z.eqb_eq _ _) Hlen). by rewrite fill_set. }
  do 2 (split; [done|]). intros i x Hx. simpl. case_decide as Hi.
  - subst i. eapply get_set_eq. by rewrite get_fill, Hx.
  - rewrite get_set_ne by done. by rewrite get_fill, Hx.
Qed.

(** When [log_softmax] keeps the length of its argument and the array has
    an element at [timestamp_begin], the call returns. *)
Lemma call_returns this (input_ids : list Z) (data : TypedArray) :
  (forall d, length (log_softmax d) = length d) ->
  0 <= timestamp_begin this < length_of data ->
  returns (_call this input_ids data) = true.
Proof.
  intros Hsoft Hts. unfold _call. case_match; [done|].
  unfold sample_timestamp.
  set (d := apply_max_initial_timestamp _ _ _).
  assert (length d = length data) as Hd.
  { unfold d, apply_max_initial_timestamp, mask_pairs.
    repeat case_match;
      rewrite ?length_subarray_fill, ?length_set; done. }
  destruct (Math_exp <$> _) as [|p ps] eqn:Hps; [|by case_match].
  apply fmap_nil_inv in Hps. apply (f_equal length) in Hps.
  unfold slice, between, relative_index, length_of in Hps.
  rewrite length_take, length_drop, Hsoft, Hd in Hps.
  unfold length_of in Hts. simpl in Hps.
  rewrite (proj2 (Z.ltb_ge _ _)) in Hps by lia. lia.
Qed.

End whisper_call.

(** ** WhisperTimeStampLogitsProcessor: timestamps come in pairs *)

Section whisper_pairs.
Import WhisperTimeStampLogitsProcessor.
Context `{Runtime}.

Variable this : t.
Hypothesis begin_index_nonneg : 0 <= begin_index this.

(** [input_ids.slice(begin_index)] drops the first [begin_index] ids. *)
Lemma slice_begin_index (input_ids : list Z) :
  slice input_ids (begin_index this) None = Pairing.seq this input_ids.
Proof.
  unfold slice, between, relative_index, length_of, Pairing.seq.
  rewrite (proj2 (Z.ltb_ge _ _)) by done.
  destruct (decide (begin_index this <= Z.of_nat (length input_ids))).
  - rewrite Z.min_l by done. apply take_ge. rewrite length_drop. lia.
  - rewrite Z.min_r by lia. rewrite Nat2Z.id, Z.sub_diag. simpl.
    rewrite drop_all. rewrite drop_ge by lia. done.
Qed.

Lemma last_was_timestamp_spec (input_ids : list Z) :
  last_was_timestamp this input_ids = true
  <-> Pairing.last_is_timestamp this input_ids.
Proof.
  unfold last_was_timestamp, Pairing.last_is_timestamp.
  rewrite slice_begin_index. set (s := Pairing.seq this input_ids).
  rewrite last_lookup. unfold get, length_of, ge_undefined.
  rewrite andb_true_iff, Z.leb_le.
  destruct s as [|y s]; simpl length.
  { split; [lia|]. by intros (x & ? & _). }
  replace (Z.to_nat _) with (length s) by lia.
  replace (0 <=? _) with true by (symmetry; apply Z.leb_le; lia).
  simpl Init.Nat.pred.
  destruct ((y :: s) !! length s) as [x|].
  - rewrite Z.leb_le. split.
    + intros [_ ?]. by exists x.
    + intros (? & [= <-] & ?). split; [lia|done].
  - split; [by intros [_ ?]|]. by intros (x & ? & _).
Qed.

Lemma penultimate_was_timestamp_spec (input_ids : list Z) :
  penultimate_was_timestamp this input_ids = true
  <-> Pairing.penultimate_is_timestamp this input_ids.
Proof.
  unfold penultimate_was_timestamp, Pairing.penultimate_is_timestamp.
  rewrite slice_begin_index. set (s := Pairing.seq this input_ids).
  unfold get, length_of, ge_undefined.
  rewrite orb_true_iff, Z.ltb_lt.
  destruct (decide (length s < 2)%nat) as [Hs|Hs].
  { split; intros _; [by left|left; lia]. }
  replace (0 <=? _) with true by (symmetry; apply Z.leb_le; lia).
  replace (Z.to_nat _) with (length s - 2)%nat by lia.
  destruct (s !! (length s - 2)%nat) as [x|].
  - rewrite Z.leb_le. split; (intros [?|Hx]; [lia|right]).
    + by exists x.
    + by destruct Hx as (? & [= <-] & ?).
  - split; (intros [?|Hx]; [lia|]); [done|]. by destruct Hx as (? & ? & _).
Qed.

Hypothesis timestamp_begin_nonneg : 0 <= timestamp_begin this.
Hypothesis eos_token_id_nonneg : 0 <= eos_token_id this.

(** A history that ends in a timestamp is longer than the forced prefix:
    the call is past the step that forces the first timestamp. *)
Lemma last_is_timestamp_not_forcing (input_ids : list Z) :
  Pairing.last_is_timestamp this input_ids ->
  length_of input_ids <> begin_index this - 1.
Proof.
  intros (x & Hlast & _). unfold Pairing.seq in Hlast.
  assert (length (drop (Z.to_nat (begin_index this)) input_ids) <> 0%nat)
    as Hlen.
  { intros Hnil%nil_length_inv. by rewrite Hnil in Hlast. }
  rewrite length_drop in Hlen. unfold length_of. lia.
Qed.

(** Outside the forcing step, the call is its four steps in a row. *)
Lemma call_steps (input_ids : list Z) (data : TypedArray) :
  length_of input_ids <> begin_index this - 1 ->
  _call this input_ids data
  = sample_timestamp this
      (apply_max_initial_timestamp this input_ids
         (mask_pairs this input_ids
            (JS.set data (no_timestamps_token_id this) neg_Infinity))).
Proof. intros Hlen. unfold _call. by rewrite (proj2 (Z.eqb_neq _ _) Hlen). Qed.

(** C6. The pairing step is the second step of [_call] outside the forcing
    step.  With [seq] the history from [begin_index] onward: when the last
    two elements of [seq] are timestamps (or [seq] is a single timestamp),
    the step sets every element from [timestamp_begin] on to negative
    infinity and keeps the others, and these elements are negative infinity
    when the call stops; when the last element is a timestamp and the one
    before is not, the step sets every element before [eos_token_id] to
    negative infinity and keeps the others, [eos_token_id] included, and the
    elements before [eos_token_id] are negative infinity when the call
    stops; in a vocabulary where [eos_token_id] is at most
    [timestamp_begin], as in Whisper, the elements it keeps include the
    whole timestamp range; when the last element is not a timestamp the
    step leaves the array as it is, and the call is its three other steps. *)
Theorem mask_pairs_spec (input_ids : list Z) (data : TypedArray) :
  (length_of input_ids <> begin_index this - 1 ->
   _call this input_ids data
   = sample_timestamp this
       (apply_max_initial_timestamp this input_ids
          (mask_pairs this input_ids
             (JS.set data (no_timestamps_token_id this) neg_Infinity))))
  /\ (Pairing.last_is_timestamp this input_ids ->
      Pairing.penultimate_is_timestamp this input_ids ->
      forall i x, get data i = Some x ->
        get (mask_pairs this input_ids data) i
        = Some (if decide (timestamp_begin this <= i)
                then neg_Infinity else x)
        /\ (timestamp_begin this <= i ->
            get (state_of (_call this input_ids data)) i
            = Some neg_Infinity))
  /\ (Pairing.last_is_timestamp this input_ids ->
      ~ Pairing.penultimate_is_timestamp this input_ids ->
      forall i x, get data i = Some x ->
        get (mask_pairs this input_ids data) i
        = Some (if decide (i < eos_token_id this)
                then neg_Infinity else x)
        /\ (i < eos_token_id this ->
            get (state_of (_call this input_ids data)) i
            = Some neg_Infinity)
        /\ (eos_token_id this <= timestamp_begin this ->
            i = eos_token_id this \/ timestamp_begin this <= i ->
            get (mask_pairs this input_ids data) i = Some x))
  /\ (~ Pairing.last_is_timestamp this input_ids ->
      mask_pairs this input_ids data = data
      /\ (length_of input_ids <> begin_index this - 1 ->
          _call this input_ids data
          = sample_timestamp this
              (apply_max_initial_timestamp this input_ids
                 (JS.set data (no_timestamps_token_id this) neg_Infinity)))).
Proof.
  split; [apply call_steps|].
  assert (forall i x, get data i = Some x ->
            is_Some (get (JS.set data (no_timestamps_token_id this)
                            neg_Infinity) i)) as Hset.
  { intros i x Hx%get_Some_range. apply get_range_Some.
    unfold length_of in *. by rewrite length_set. }
  split; [|split].
  - intros Hlast Hpen i x Hx.
    pose proof (last_is_timestamp_not_forcing _ Hlast) as Hlen.
    apply last_was_timestamp_spec in Hlast.
    apply penultimate_was_timestamp_spec in Hpen.
    split.
    + unfold mask_pairs. rewrite Hlast, Hpen.
      rewrite get_subarray_fill_from, Hx by done. simpl.
      rewrite (bool_decide_decide (timestamp_begin this <= i)).
      by case_decide.
    + intros Hi. rewrite call_steps by done.
      apply sample_timestamp_suppressed,
        apply_max_initial_timestamp_suppressed.
      destruct (Hset i x Hx) as [y Hy].
      unfold mask_pairs. rewrite Hlast, Hpen.
      rewrite get_subarray_fill_from, Hy by done. simpl.
      by rewrite bool_decide_eq_true_2.
  - intros Hlast Hpen i x Hx.
    pose proof (last_is_timestamp_not_forcing _ Hlast) as Hlen.
    apply last_was_timestamp_spec in Hlast.
    rewrite <-penultimate_was_timestamp_spec in Hpen.
    apply not_true_is_false in Hpen.
    assert (get (mask_pairs this input_ids data) i
            = Some (if decide (i < eos_token_id this)
                    then neg_Infinity else x)) as Hstep.
    { unfold mask_pairs. rewrite Hlast, Hpen.
      rewrite get_subarray_fill_upto, Hx by done. simpl.
      rewrite (bool_decide_decide (i < eos_token_id this)).
      by case_decide. }
    split; [done|]. split.
    + intros Hi. rewrite call_steps by done.
      apply sample_timestamp_suppressed,
        apply_max_initial_timestamp_suppressed.
      destruct (Hset i x Hx) as [y Hy].
      unfold mask_pairs. rewrite Hlast, Hpen.
      rewrite get_subarray_fill_upto, Hy by done. simpl.
      by rewrite bool_decide_eq_true_2.
    + intros Hlayout Hi. rewrite Hstep.
      rewrite decide_False; [done|]. lia.
  - intros Hlast. rewrite <-last_was_timestamp_spec in Hlast.
    apply not_true_is_false in Hlast.
    assert (forall d, mask_pairs this input_ids d = d) as Hid.
    { intros d. unfold mask_pairs. by rewrite Hlast. }
    split; [apply Hid|]. intros Hlen.
    by rewrite call_steps, Hid by done.
Qed.

End whisper_pairs.

Section whisper_pairs_example.
Import WhisperTimeStampLogitsProcessor.

Lemma mask_pairs_spec_witness :
  get (state_of (@_call example_runtime (Example.processor null)
                   [0; 0; 3; 4] Example.scores)) 3
  = Some neg_Infinity
  /\ get (state_of (@_call example_runtime (Example.processor null)
                      [0; 0; 3; 0; 4] Example.scores)) 0
     = Some neg_Infinity
  /\ get (mask_pairs (Example.processor null) [0; 0; 3; 0; 4]
            Example.scores) 4
     = Some (of_Z 9)
  /\ mask_pairs (Example.processor null) [0; 0; 3; 4; 0] Example.scores
     = Example.scores.
Proof.
  pose proof (@mask_pairs_spec example_runtime (Example.processor null)
                ltac:(simpl; lia) ltac:(simpl; lia) ltac:(simpl; lia))
    as Hspec.
  assert (~ Pairing.penultimate_is_timestamp (Example.processor null)
              [0; 0; 3; 0; 4]) as Htext.
  { intros [Hlen | (x & Hx & Hge)].
    - simpl in Hlen. lia.
    - injection Hx as <-. simpl in Hge. lia. }
  split; [|split; [|split]].
  - apply (proj1 (proj2 (Hspec [0; 0; 3; 4] Example.scores)))
      with (x := of_Z 8).
    + exists 4. split; [reflexivity | simpl; lia].
    + left. simpl. lia.
    + reflexivity.
    + simpl. lia.
  - apply (proj1 (proj2 (proj2 (Hspec [0; 0; 3; 0; 4] Example.scores))))
      with (x := of_Z 5).
    + exists 4. split; [reflexivity | simpl; lia].
    + exact Htext.
    + reflexivity.
    + simpl. lia.
  - apply (proj1 (proj2 (proj2 (Hspec [0; 0; 3; 0; 4] Example.scores))))
      with (x := of_Z 9).
    + exists 4. split; [reflexivity | simpl; lia].
    + exact Htext.
    + reflexivity.
    + simpl. lia.
    + right. simpl. lia.
  - apply (proj2 (proj2 (proj2 (Hspec [0; 0; 3; 4; 0] Example.scores)))).
    intros (x & Hx & Hge). injection Hx as <-. simpl in Hge. lia.
Defined.

End whisper_pairs_example.

(** ** WhisperTimeStampLogitsProcessor: the first timestamp *)

Section whisper_max_initial_timestamp.
Import WhisperTimeStampLogitsProcessor.

(** With an index [m], and a history of [begin_index] elements, every
    element beyond [timestamp_begin + m] becomes negative infinity and the
    others keep their value. *)
Lemma max_initial_timestamp_set this (input_ids : list Z)
    (data : TypedArray) (m : Z) :
  max_initial_timestamp_index this = value m ->
  length_of input_ids = begin_index this ->
  0 <= timestamp_begin this + m + 1 ->
  forall i x, get data i = Some x ->
    get (apply_max_initial_timestamp this input_ids data) i
    = Some (if decide (timestamp_begin this + m < i)
            then neg_Infinity else x).
Proof.
  intros Hm Hlen Hnonneg i x Hx. unfold apply_max_initial_timestamp.
  rewrite Hm, (proj2 (Z.eqb_eq _ _) Hlen). simpl.
  change (ToIntegerOrInfinity _) with (Z.succ (timestamp_begin this + m)).
  rewrite get_subarray_fill_from, Hx by lia. simpl.
  case_bool_decide; case_decide; try done; lia.
Qed.

(** With [null], or with a history of another length, the step leaves the
    array as it is. *)
Lemma max_initial_timestamp_null this (input_ids : list Z)
    (data : TypedArray) :
  max_initial_timestamp_index this = null
  \/ length_of input_ids <> begin_index this ->
  apply_max_initial_timestamp this input_ids data = data.
Proof.
  unfold apply_max_initial_timestamp. intros [-> | Hlen].
  - by rewrite andb_false_r.
  - by rewrite (proj2 (Z.eqb_neq _ _) Hlen).
Qed.

(** With the property absent, the guard [!== null] lets the step run:
    [last_allowed] is [NaN], [subarray(NaN)] is the whole array, and every
    element becomes negative infinity. *)
Lemma max_initial_timestamp_undefined this (input_ids : list Z)
    (data : TypedArray) :
  max_initial_timestamp_index this = undefined ->
  length_of input_ids = begin_index this ->
  apply_max_initial_timestamp this input_ids data
  = JS.fill data neg_Infinity.
Proof.
  intros Hm Hlen. unfold apply_max_initial_timestamp.
  rewrite Hm, (proj2 (Z.eqb_eq _ _) Hlen). simpl.
  unfold subarray_fill, JS.fill, relative_index. simpl.
  by rewrite Z.min_l by (unfold length_of; lia).
Qed.

(** C3, at a configuration without [max_initial_timestamp_index].  The
    constructor accepts it; with a history of [begin_index] = 3 tokens the
    pairing step changes nothing, and then the step for the first
    timestamp suppresses all six scores, although no limit on the first
    timestamp was asked for; the call leaves them all suppressed. *)
Theorem max_initial_timestamp_absent :
  constructor (Example.config undefined)
  = Instance_ (Example.processor undefined)
  /\ mask_pairs (Example.processor undefined) [0; 0; 3] Example.scores
     = Example.scores
  /\ apply_max_initial_timestamp (Example.processor undefined) [0; 0; 3]
       Example.scores
     = replicate 6 neg_Infinity
  /\ state_of (@_call example_runtime (Example.processor undefined)
                 [0; 0; 3] Example.scores)
     = replicate 6 neg_Infinity.
Proof. repeat split; reflexivity. Qed.

End whisper_max_initial_timestamp.

Section whisper_call_examples.
Import WhisperTimeStampLogitsProcessor.

Lemma constructor_example m :
  constructor (Example.config m) = Instance_ (Example.processor m).
Proof. done. Qed.

Lemma no_timestamps_token_suppressed_witness :
  get (state_of (@_call example_runtime (Example.processor (value 1))
                   [0; 0; 3] Example.scores)) 2
  = Some neg_Infinity.
Proof.
  apply (@no_timestamps_token_suppressed example_runtime
           (Example.config (value 1)) (Example.processor (value 1))
           [0; 0; 3] Example.scores (of_Z 7)); reflexivity.
Defined.

Lemma first_token_is_timestamp_witness :
  @_call example_runtime (Example.processor (value 1)) [0; 0] Example.scores
  = Return [neg_Infinity; neg_Infinity; neg_Infinity; zero;
            neg_Infinity; neg_Infinity].
Proof.
  apply (proj1 (proj2 (@first_token_is_timestamp example_runtime
                         (Example.config (value 1))
                         (Example.processor (value 1))
                         [0; 0] Example.scores eq_refl eq_refl))).
Defined.

End whisper_call_examples.

(** ** Multiplying and dividing a binary64 number by one *)

Section binary64_unit.

Lemma digits_shl k m :
  Zpos (digits2_pos (shl k m)) = Zpos (digits2_pos m) + Z.of_nat k.
Proof.
  induction k as [|k IH]; simpl digits2_pos; simpl shl; [lia|].
  rewrite Pos2Z.inj_succ, IH. lia.
Qed.

Lemma shr_n_shl k m :
  shr_n k {| shr_m := Zpos (shl k m); shr_r := false; shr_s := false |}
  = {| shr_m := Zpos m; shr_r := false; shr_s := false |}.
Proof. induction k; simpl; auto. Qed.

Lemma shr_n_add a b r : shr_n (a + b) r = shr_n b (shr_n a r).
Proof. revert r. induction a; simpl; auto. Qed.

Lemma iter_pos_shr_1 p r :
  SpecFloat.iter_pos shr_1 p r = shr_n (Pos.to_nat p) r.
Proof.
  revert r. induction p as [p IH|p IH|]; intros r; simpl SpecFloat.iter_pos.
  - rewrite !IH, Pos2Nat.inj_xI. simpl.
    by rewrite Nat.add_0_r, shr_n_add.
  - rewrite !IH, Pos2Nat.inj_xO. simpl.
    by rewrite Nat.add_0_r, shr_n_add.
  - done.
Qed.

Lemma bounded_inv m e :
  bounded 53 1024 m e = true ->
  Z.max (Zpos (digits2_pos m) + e - 53) (-1074) = e /\ e <= 971.
Proof.
  unfold bounded, canonical_mantissa, fexp, emin.
  intros [H1 H2]%andb_true_iff.
  apply Z.eqb_eq in H1. apply Z.leb_le in H2. done.
Qed.

(** A canonical mantissa is not shifted by the rounding. *)
Lemma shr_fexp_canonical m e :
  Z.max (Zpos (digits2_pos m) + e - 53) (-1074) = e ->
  shr_fexp 53 1024 (Zpos m) e loc_Exact
  = ({| shr_m := Zpos m; shr_r := false; shr_s := false |}, e).
Proof.
  intros Hc. unfold shr_fexp, fexp, emin. simpl Zdigits2.
  by replace (Z.max (Z.pos (digits2_pos m) + e - 53) (3 - 1024 - 53) - e)
    with 0 by lia.
Qed.

(** Rounding [m * 2^k] at exponent [e - k] gives back [m] at [e]. *)
Lemma binary_round_aux_shl s m e (k : nat) :
  bounded 53 1024 m e = true ->
  binary_round_aux 53 1024 s (Zpos (shl k m)) (e - Z.of_nat k) loc_Exact
  = S754_finite s m e.
Proof.
  intros [Hc He]%bounded_inv. unfold binary_round_aux.
  assert (shr_fexp 53 1024 (Zpos (shl k m)) (e - Z.of_nat k) loc_Exact
          = ({| shr_m := Zpos m; shr_r := false; shr_s := false |}, e))
    as ->.
  { unfold shr_fexp, Zdigits2, fexp, emin. rewrite digits_shl.
    replace (Z.max _ _ - (e - Z.of_nat k)) with (Z.of_nat k) by lia.
    destruct k as [|k].
    - simpl. f_equal. lia.
    - change (Z.of_nat (S k)) with (Zpos (Pos.of_succ_nat k)) at 2.
      unfold shr, shr_record_of_loc.
      rewrite iter_pos_shr_1, SuccNat2Pos.id_succ, shr_n_shl.
      f_equal. lia. }
  unfold loc_of_shr_record, shr_m at 1, round_nearest_even.
  rewrite shr_fexp_canonical by done. unfold shr_m.
  by rewrite (proj2 (Z.leb_le e (1024 - 53))) by lia.
Qed.

(** The literal [1.0] is the number that the integer 1 denotes. *)
Lemma one_of_Z : one = of_Z 1.
Proof. reflexivity. Qed.

Lemma mul_one x : valid_binary 53 1024 x = true -> mul x one = x.
Proof.
  destruct x as [s|s| |s m e]; intros Hx;
    try (by destruct s); try done.
  unfold mul, one, SFmul. rewrite Pos.mul_comm.
  change (2 ^ 52 * m)%positive with (shl 52 m).
  change (e + -52) with (e - Z.of_nat 52).
  rewrite binary_round_aux_shl by done. by rewrite xorb_false_r.
Qed.

Lemma div_eucl_pow2 a b : 0 < b -> Z.div_eucl (a * b) b = (a, 0).
Proof.
  intros Hb.
  pose proof (Z.div_eucl_eq (a * b) b ltac:(lia)) as Heq.
  pose proof (Z.mod_pos_bound (a * b) b Hb) as Hmod.
  unfold Z.modulo in Hmod. destruct (Z.div_eucl _ _) as [q r].
  assert (q = a) as -> by nia. f_equal. lia.
Qed.

Lemma div_one x : valid_binary 53 1024 x = true -> div x one = x.
Proof.
  destruct x as [s|s| |s m e]; intros Hx;
    try (by destruct s); try done.
  pose proof (bounded_inv _ _ Hx) as [Hc He].
  unfold div, one, SFdiv, SFdiv_core_binary.
  change (Zdigits2 (Zpos (2 ^ 52))) with 53.
  change (Zpos (2 ^ 52)) with (2 ^ 52).
  unfold Zdigits2, fexp, emin.
  destruct (decide (e = -1074)) as [->|Hne].
  - replace (Z.min _ _) with (-1074) by lia.
    change (-1074 - -52 - -1074) with 52. cbv iota.
    rewrite Z.shiftl_mul_pow2 by lia.
    rewrite (div_eucl_pow2 (Zpos m) (2 ^ 52)) by lia.
    change (new_location (2 ^ 52) 0) with loc_Exact.
    change (Zpos m) with (Zpos (shl 0 m)).
    change (-1074) with (-1074 - Z.of_nat 0) at 1.
    rewrite binary_round_aux_shl by done. by rewrite xorb_false_r.
  - replace (Z.min _ _) with (e - 1) by lia.
    replace (e - -52 - (e - 1)) with 53 by lia. cbv iota.
    rewrite Z.shiftl_mul_pow2 by lia.
    change (2 ^ 53) with (2 * 2 ^ 52). rewrite Z.mul_assoc.
    rewrite (div_eucl_pow2 (Zpos m * 2) (2 ^ 52)) by lia.
    change (new_location (2 ^ 52) 0) with loc_Exact.
    replace (Zpos m * 2) with (Zpos (shl 1 m)) by (simpl shl; lia).
    change (e - 1) with (e - Z.of_nat 1).
    rewrite binary_round_aux_shl by done. by rewrite xorb_false_r.
Qed.

End binary64_unit.

(** ** RepetitionPenaltyLogitsProcessor *)

Section repetition_penalty.
Import RepetitionPenaltyLogitsProcessor.

(** One step of the loop transforms the score of [input_id], if the array
    has one, and nothing else. *)
Lemma get_penalise this (data : TypedArray) (input_id i : Z) :
  get (penalise this data input_id) i
  = if decide (i = input_id)
    then Penalty.transform (penalty this) <$> get data i
    else get data i.
Proof.
  assert (penalise this data input_id
          = JS.set data input_id
              (Penalty.transform (penalty this)
                 (ToNumber (get data input_id)))) as ->.
  { unfold penalise, Penalty.transform. by case_match. }
  case_decide as Hi; [subst i|by rewrite get_set_ne].
  destruct (get data input_id) as [x|] eqn:Hx.
  - by rewrite (get_set_eq _ _ _ _ Hx).
  - by rewrite get_set_outside.
Qed.

(** The array rounds what the loop stores: with penalty 3 the score 1
    becomes the binary32 number nearest to a third, 11184811 / 2^25, and not
    the binary64 quotient. *)
Lemma repetition_penalty_rounds :
  _call (constructor (of_Z 3)) [0] [of_Z 1]
  = [S754_finite false (11184811 * 2 ^ 29) (-54)]
  /\ div (of_Z 1) (of_Z 3) = S754_finite false 6004799503160661 (-54).
Proof. split; vm_compute; reflexivity. Qed.

(** C2, as the code has it.  After the call, the score at an index is the
    score before the call with the transform applied once for every
    occurrence of the index in the history, each time on the score the
    previous occurrence left; the transform multiplies a negative score by
    the penalty, divides any other score by it, and rounds the result to
    binary32 as the array stores it.  An index that does not occur keeps
    its score. *)
Theorem repetition_penalty_per_occurrence this (input_ids : list Z)
    (data : TypedArray) (i : Z) :
  get (_call this input_ids data) i
  = Nat.iter (count_occ Z.eq_dec input_ids i)
      (Penalty.transform (penalty this))
    <$> get data i.
Proof.
  unfold _call. revert data.
  induction input_ids as [|input_id input_ids IH]; intros data; simpl.
  { by destruct (get data i). }
  rewrite IH, get_penalise.
  destruct (Z.eq_dec input_id i) as [->|Hne].
  - rewrite decide_True by done.
    destruct (get data i) as [x|]; [|done]. simpl.
    by rewrite <-Nat.iter_succ_r.
  - by rewrite decide_False by done.
Qed.

(** C2, as the description has it, fails: with penalty 2, the score 8 at
    an index that occurs twice in the history becomes 2, where one
    application of the transform gives 4. *)
Lemma repetition_penalty_once_counterexample :
  _call (constructor (of_Z 2)) [0; 0] [of_Z 8] = [of_Z 2]
  /\ Penalty.once_per_index (constructor (of_Z 2)) [0; 0] [of_Z 8]
     = [of_Z 4]
  /\ _call (constructor (of_Z 2)) [0; 0] [of_Z 8]
     <> Penalty.once_per_index (constructor (of_Z 2)) [0; 0] [of_Z 8].
Proof.
  split; [vm_compute; reflexivity|].
  split; [vm_compute; reflexivity|]. vm_compute. discriminate.
Qed.

(** C9. With the penalty [1.0] the call leaves every element of the array
    as it is, for any history; the elements are numbers that the array can
    hold. *)
Theorem repetition_penalty_one (input_ids : list Z) (data : TypedArray) :
  Forall wf_number data ->
  _call (constructor one) input_ids data = data.
Proof.
  intros Hwf. unfold _call.
  induction input_ids as [|input_id input_ids IH]; simpl; [done|].
  assert (penalise (constructor one) data input_id = data) as ->; [|done].
  apply array_eq. intros i. rewrite get_penalise.
  case_decide; [|done]. destruct (get data i) as [x|] eqn:Hx; [|done].
  assert (wf_number x) as Hwfx.
  { unfold get in Hx. case_match; [|done].
    by eapply (proj1 (Forall_lookup _ _) Hwf). }
  destruct Hwfx as [Hvalid Hround].
  simpl. f_equal. unfold Penalty.transform.
  case_match; [rewrite mul_one by done | rewrite div_one by done]; done.
Qed.

Lemma repetition_penalty_one_witness :
  _call (constructor one) [1; 0; 1; 7] [of_Z 8; of_Z (-3); zero; neg_Infinity]
  = [of_Z 8; of_Z (-3); zero; neg_Infinity].
Proof.
  apply repetition_penalty_one.
  repeat (apply Forall_cons; split; [split; vm_compute; reflexivity|]).
  apply Forall_nil_2.
Defined.

End repetition_penalty.

(** ** [JSON.stringify] tells arrays of integers apart *)

Section json_stringify.

Lemma numeric_pretty_N_char x : numeric (pretty_N_char x) = true.
Proof. unfold pretty_N_char. by repeat case_match. Qed.

Lemma numeric_pretty_N_go x s :
  string_forall numeric s = true ->
  string_forall numeric (pretty_N_go x s) = true.
Proof.
  revert s. induction (N.lt_wf_0 x) as [x _ IH]; intros s Hs.
  destruct (decide (x = 0%N)) as [->|Hx]; [by rewrite pretty_N_go_0|].
  rewrite pretty_N_go_step by lia. apply IH.
  - apply N.div_lt; lia.
  - simpl. by rewrite numeric_pretty_N_char.
Qed.

Lemma pretty_N_go_nonempty x s : s <> "" -> pretty_N_go x s <> "".
Proof.
  revert s. induction (N.lt_wf_0 x) as [x _ IH]; intros s Hs.
  destruct (decide (x = 0%N)) as [->|Hx]; [by rewrite pretty_N_go_0|].
  rewrite pretty_N_go_step by lia. apply IH; [apply N.div_lt; lia|done].
Qed.

Lemma numeric_pretty_N (x : N) : string_forall numeric (pretty x) = true.
Proof.
  unfold pretty, pretty_N. case_decide; [done|].
  by apply numeric_pretty_N_go.
Qed.

Lemma pretty_N_nonempty (x : N) : pretty x <> "".
Proof.
  unfold pretty, pretty_N. case_decide; [done|].
  rewrite pretty_N_go_step by lia. by apply pretty_N_go_nonempty.
Qed.

Lemma numeric_pretty_Z (z : Z) : string_forall numeric (pretty z) = true.
Proof.
  destruct z as [|p|p]; [done|..]; unfold pretty, pretty_Z, pretty_positive.
  - apply numeric_pretty_N.
  - simpl. apply numeric_pretty_N.
Qed.

Lemma pretty_Z_nonempty (z : Z) : pretty z <> "".
Proof.
  destruct z as [|p|p]; [done|..]; unfold pretty, pretty_Z, pretty_positive.
  - apply pretty_N_nonempty.
  - done.
Qed.

Lemma numeric_not_separator s :
  string_forall numeric s = true ->
  string_forall (fun c => negb (separator c)) s = true.
Proof.
  induction s as [|c s IH]; [done|]. simpl.
  intros [Hc Hs]%andb_true_iff. rewrite IH by done.
  rewrite andb_true_r. unfold numeric in Hc. unfold separator.
  apply bool_decide_eq_true in Hc.
  repeat (apply elem_of_cons in Hc as [->|Hc]; [done|]).
  by apply elem_of_nil in Hc.
Qed.

Lemma stringify_element_plain x :
  string_forall (fun c => negb (separator c)) (stringify_element x) = true.
Proof.
  destruct x as [z|]; [|done].
  apply numeric_not_separator, numeric_pretty_Z.
Qed.

Lemma stringify_element_nonempty x : stringify_element x <> "".
Proof. destruct x as [z|]; [apply pretty_Z_nonempty|done]. Qed.

Global Instance stringify_element_inj : Inj (=) (=) stringify_element.
Proof.
  intros [z1|] [z2|] Heq; simpl in Heq.
  - f_equal. by apply (inj pretty).
  - pose proof (numeric_pretty_Z z1) as Hn. by rewrite Heq in Hn.
  - pose proof (numeric_pretty_Z z2) as Hn. by rewrite <-Heq in Hn.
  - done.
Qed.

(** Two strings that agree up to and including their first separator. *)
Lemma split_at_separator a b c1 c2 r1 r2 :
  string_forall (fun c => negb (separator c)) a = true ->
  string_forall (fun c => negb (separator c)) b = true ->
  separator c1 = true -> separator c2 = true ->
  a +:+ String c1 r1 = b +:+ String c2 r2 ->
  a = b /\ c1 = c2 /\ r1 = r2.
Proof.
  intros Ha Hb Hc1 Hc2. revert b Hb.
  induction a as [|x a IH]; intros [|y b] Hb; simpl in *.
  - by intros [= -> ->].
  - intros [= -> _]. apply andb_true_iff in Hb as [Hy _].
    by rewrite Hc1 in Hy.
  - intros [= -> _]. apply andb_true_iff in Ha as [Hx _].
    by rewrite Hc2 in Hx.
  - intros [= -> Heq]. apply andb_true_iff in Ha as [_ Ha].
    apply andb_true_iff in Hb as [_ Hb].
    destruct (IH Ha b Hb Heq) as (-> & -> & ->). done.
Qed.

Global Instance stringify_elements_inj : Inj (=) (=) stringify_elements.
Proof.
  intros xs. induction xs as [|x xs IH]; intros [|y ys] Heq.
  - done.
  - exfalso. change (stringify_elements []) with ("" +:+ String "]" "") in Heq.
    destruct ys as [|y' ys]; simpl in Heq;
      apply split_at_separator in Heq as (He & _);
      auto using stringify_element_plain;
      by destruct (stringify_element_nonempty y).
  - exfalso.
    change (stringify_elements []) with ("" +:+ String "]" "") in Heq.
    destruct xs as [|x' xs]; simpl in Heq;
      apply split_at_separator in Heq as (He & _);
      auto using stringify_element_plain;
      by destruct (stringify_element_nonempty x).
  - destruct xs as [|x' xs], ys as [|y' ys]; simpl in Heq;
      apply split_at_separator in Heq as (He & Hc & Hr);
      auto using stringify_element_plain; try done.
    + by apply (inj stringify_element) in He as ->.
    + apply (inj stringify_element) in He as ->.
      by rewrite (IH (y' :: ys) Hr).
Qed.

Global Instance JSON_stringify_inj : Inj (=) (=) JSON_stringify.
Proof.
  intros xs ys [= Heq]. by apply (inj stringify_elements).
Qed.

End json_stringify.

(** ** NoRepeatNGramLogitsProcessor: which tokens are banned *)

Section banned_tokens.

(** The map of [getNgrams] holds, under each key, the followers of the
    prefix with that key. *)
Lemma getNgrams_lookup (ngramSize : Z) (prevInputIds : list Z) (key : string) :
  default [] (getNgrams ngramSize prevInputIds !! key)
  = NGram.followers key (ngrams_of ngramSize prevInputIds).
Proof.
  unfold getNgrams, NGram.followers.
  induction (ngrams_of ngramSize prevInputIds) as [|ngram ngrams IH]
    using rev_ind; [done|].
  rewrite fold_left_app, filter_app, fmap_app. simpl.
  set (k := JSON_stringify _).
  destruct (decide (k = key)) as [Hk|Hk].
  - rewrite filter_cons_True, filter_nil by done. subst key.
    rewrite lookup_insert_eq. simpl. by rewrite <-IH.
  - rewrite filter_cons_False, filter_nil by done.
    rewrite lookup_insert_ne by done. by rewrite app_nil_r.
Qed.

(** The n-gram collected at [j] is the window at [j]. *)
Lemma ngram_window (n j : nat) (prevInputIds : list Z) :
  (j + n <= length prevInputIds)%nat ->
  (fun k => prevInputIds !! (j + k)%nat) <$> seq 0 n
  = Some <$> NGram.window n j prevInputIds.
Proof.
  intros Hj. apply list_eq. intros i. unfold NGram.window.
  rewrite !list_lookup_fmap.
  destruct (decide (i < n)%nat) as [Hi|Hi].
  - rewrite lookup_seq_lt by done. rewrite lookup_take_lt by done.
    rewrite lookup_drop. simpl.
    destruct (lookup_lt_is_Some_2 prevInputIds (j + i)) as [x Hx]; [lia|].
    by rewrite Hx.
  - rewrite lookup_seq_ge by lia. rewrite lookup_take_ge by lia. done.
Qed.

Lemma length_window (n j : nat) (prevInputIds : list Z) :
  (j + n <= length prevInputIds)%nat ->
  length (NGram.window n j prevInputIds) = n.
Proof.
  intros Hj. unfold NGram.window. rewrite length_take, length_drop. lia.
Qed.

Lemma elem_of_ngrams_of (n : nat) (prevInputIds : list Z) ngram :
  ngram ∈ ngrams_of (Z.of_nat n) prevInputIds
  <-> exists j : nat,
        (j + n <= length prevInputIds)%nat
        /\ ngram = Some <$> NGram.window n j prevInputIds.
Proof.
  unfold ngrams_of, length_of. rewrite list_elem_of_fmap.
  rewrite Nat2Z.id. split.
  - intros (j & -> & [_ Hj]%elem_of_seq).
    exists j. split; [lia|]. apply ngram_window. lia.
  - intros (j & Hj & ->). exists j. split.
    + symmetry. by apply ngram_window.
    + apply elem_of_seq. lia.
Qed.

(** The prefix and the last element of an n-gram that is a window. *)
Lemma slice_init {A} (xs : list A) :
  slice xs 0 (Some (length_of xs - 1)) = take (length xs - 1) xs.
Proof.
  unfold slice, between, relative_index, length_of. simpl.
  destruct xs as [|x xs]; [done|].
  rewrite (proj2 (Z.ltb_ge _ _)) by (simpl; lia).
  f_equal. simpl. lia.
Qed.

Lemma get_last {A} (xs : list A) : get xs (length_of xs - 1) = last xs.
Proof.
  unfold get, length_of. rewrite last_lookup.
  destruct xs as [|x xs]; [done|].
  rewrite (proj2 (Z.leb_le _ _)) by (simpl; lia).
  f_equal. simpl. lia.
Qed.

(** [prevInputIds.slice(length + 1 - n, length)] is the most recent
    [n - 1] elements. *)
Lemma slice_recent (n : nat) (prevInputIds : list Z) :
  (1 <= n <= length prevInputIds + 1)%nat ->
  slice prevInputIds (length_of prevInputIds + 1 - Z.of_nat n)
    (Some (length_of prevInputIds))
  = NGram.recent n prevInputIds.
Proof.
  intros Hn. unfold slice, between, relative_index, length_of, NGram.recent.
  rewrite !(proj2 (Z.ltb_ge _ _)) by lia.
  rewrite Z.min_id, Z.min_l by lia.
  rewrite take_ge by (rewrite length_drop; lia). f_equal. lia.
Qed.

(** A token is among the banned tokens exactly when the description bans
    it; and no banned token is [undefined]. *)
Lemma calcBannedNgramTokens_spec (n : nat) (prevInputIds : list Z)
    (token : option Z) :
  (1 <= n)%nat ->
  token ∈ calcBannedNgramTokens (Z.of_nat n) prevInputIds
  <-> exists t, token = Some t /\ NGram.banned n prevInputIds t.
Proof.
  intros Hn. unfold calcBannedNgramTokens, length_of.
  destruct (Z.ltb_spec (Z.of_nat (length prevInputIds) + 1) (Z.of_nat n))
    as [Hshort|Hlong].
  { split; [by intros ?%elem_of_nil|].
    intros (t & _ & j & Hj & _). lia. }
  unfold getGeneratedNgrams. rewrite getNgrams_lookup.
  change (Z.of_nat (length prevInputIds)) with (length_of prevInputIds).
  rewrite slice_recent by (unfold length_of in *; lia).
  unfold NGram.followers. rewrite list_elem_of_fmap.
  setoid_rewrite list_elem_of_filter.
  setoid_rewrite elem_of_ngrams_of.
  unfold NGram.banned. split.
  - intros (ngram & -> & Hkey & j & Hj & ->).
    apply (inj JSON_stringify) in Hkey.
    rewrite slice_init, length_fmap, length_window in Hkey by done.
    rewrite <-fmap_take in Hkey. apply (inj (fmap Some)) in Hkey.
    rewrite get_last, fmap_last.
    destruct (last (NGram.window n j prevInputIds)) as [t|] eqn:Hlast.
    + exists t. split; [done|]. by exists j.
    + apply last_None in Hlast. apply (f_equal length) in Hlast.
      rewrite length_window in Hlast by done. simpl in Hlast. lia.
  - intros (t & -> & j & Hj & Hprefix & Hlast).
    exists (Some <$> NGram.window n j prevInputIds). split; [|split].
    + by rewrite get_last, fmap_last, Hlast.
    + rewrite slice_init, length_fmap, length_window by done.
      by rewrite <-fmap_take, Hprefix.
    + by exists j.
Qed.

End banned_tokens.

(** ** NoRepeatNGramLogitsProcessor: the call *)

Section no_repeat_ngram.
Import NoRepeatNGramLogitsProcessor.

Lemma get_ban (data : TypedArray) (token : option Z) i :
  get (ban data token) i
  = if decide (token = Some i)
    then (fun _ => neg_Infinity) <$> get data i
    else get data i.
Proof.
  destruct token as [k|]; [|by rewrite decide_False].
  unfold ban. destruct (decide (k = i)) as [->|Hne].
  - rewrite decide_True by done.
    destruct (get data i) as [y|] eqn:Hy.
    + by rewrite (get_set_eq _ _ _ _ Hy).
    + by rewrite get_set_outside, Hy.
  - rewrite get_set_ne by done. rewrite decide_False; [done|]. by intros [= ->].
Qed.

(** The loop over the banned tokens suppresses their scores and no other. *)
Lemma get_fold_ban (bannedTokens : list (option Z)) (data : TypedArray) i :
  get (fold_left ban bannedTokens data) i
  = if decide (Some i ∈ bannedTokens)
    then (fun _ => neg_Infinity) <$> get data i
    else get data i.
Proof.
  revert data.
  induction bannedTokens as [|token tokens IH]; intros data.
  { rewrite decide_False; [done|]. by intros ?%elem_of_nil. }
  simpl fold_left. rewrite IH, get_ban.
  destruct (decide (token = Some i)) as [->|Hne].
  - rewrite (decide_True (P := Some i ∈ Some i :: tokens))
      by apply list_elem_of_here.
    case_decide; [|done]. by destruct (get data i).
  - apply decide_ext. rewrite elem_of_cons.
    split; [by right|]. by intros [?|?].
Qed.

(** C7. For a size [n >= 1]: the banned tokens are the tokens that end a
    window of [n] elements of the history which starts with the most recent
    [n - 1] elements; the score of every banned token becomes negative
    infinity and every other score is unchanged; a history with
    [length + 1 < n] bans nothing; and with [n = 2] and the history
    [5, 3, 5, 3] the score of token 5, and no other, is suppressed. *)
Theorem no_repeat_ngram_spec (n : nat) (input_ids : list Z)
    (data : TypedArray) :
  (1 <= n)%nat ->
  let this := constructor (Z.of_nat n) in
  (forall token,
     token ∈ calcBannedNgramTokens (no_repeat_ngram_size this) input_ids
     <-> exists t, token = Some t /\ NGram.banned n input_ids t)
  /\ (forall i x, get data i = Some x ->
     (NGram.banned n input_ids i ->
      get (_call this input_ids data) i = Some neg_Infinity)
     /\ (~ NGram.banned n input_ids i ->
         get (_call this input_ids data) i = Some x))
  /\ (length_of input_ids + 1 < Z.of_nat n ->
      calcBannedNgramTokens (no_repeat_ngram_size this) input_ids = []
      /\ _call this input_ids data = data)
  /\ (forall i x, get data i = Some x ->
        get (_call (constructor 2) [5; 3; 5; 3] data) i
        = Some (if decide (i = 5) then neg_Infinity else x)).
Proof.
  intros Hn this.
  split; [intros token; by apply calcBannedNgramTokens_spec|].
  split; [|split].
  - intros i x Hx. unfold _call. simpl. rewrite get_fold_ban, Hx.
    split; intros Hb.
    + rewrite decide_True; [done|].
      apply calcBannedNgramTokens_spec; [done|]. by exists i.
    + rewrite decide_False; [done|].
      intros (t & [= <-] & Hb')%calcBannedNgramTokens_spec; done.
  - intros Hshort. unfold _call, calcBannedNgramTokens. simpl.
    by rewrite (proj2 (Z.ltb_lt _ _) Hshort).
  - intros i x Hx. unfold _call.
    change (calcBannedNgramTokens _ _) with [Some 5].
    rewrite get_fold_ban, Hx.
    case_decide as Hin; case_decide as Hi; try done.
    + by apply list_elem_of_singleton in Hin as [= ->].
    + subst i. by destruct Hin; apply list_elem_of_singleton.
Qed.

Lemma no_repeat_ngram_spec_witness :
  get (_call (constructor 3) [5; 3; 7; 5; 3]
         [zero; zero; zero; zero; zero; zero; zero; zero]) 7
  = Some neg_Infinity.
Proof.
  apply (proj1 (proj1 (proj2 (no_repeat_ngram_spec 3 [5; 3; 7; 5; 3]
                                [zero; zero; zero; zero; zero; zero; zero; zero]
                                ltac:(lia))) 7 zero eq_refl)).
  exists 0%nat. split; [simpl; lia|]. split; reflexivity.
Defined.

End no_repeat_ngram.

(** ** LogitsProcessorList *)

Section logits_processor_list.
Import LogitsProcessorList.

(** [push] and [extend] add at the end, in the order given. *)
Lemma processors_push this item :
  processors (push this item) = processors this ++ [item].
Proof. done. Qed.

Lemma processors_extend this items :
  processors (extend this items) = processors this ++ items.
Proof. done. Qed.

Lemma processors_push_all this items :
  processors (fold_left push items this) = processors this ++ items.
Proof.
  revert this. induction items as [|item items IH]; intros this; simpl.
  - by rewrite app_nil_r.
  - by rewrite IH, processors_push, <-app_assoc.
Qed.

(** [forEach] calls the processors from first to last; each is given the
    array as the one before left it, and a throw ends the loop. *)
Lemma forEach_app funcs1 funcs2 (input_ids : list Z) (data : TypedArray) :
  forEach (funcs1 ++ funcs2) input_ids data
  = match forEach funcs1 input_ids data with
    | Return data' => forEach funcs2 input_ids data'
    | Throw data' => Throw data'
    end.
Proof.
  revert data. induction funcs1 as [|func funcs1 IH]; intros data; simpl.
  - done.
  - by destruct (func input_ids data).
Qed.

(** When every processor returns, [forEach] returns the array that the
    processors leave, applied from first to last. *)
Lemma forEach_returns funcs (input_ids : list Z) (data : TypedArray) :
  (forall func d, func ∈ funcs -> returns (func input_ids d) = true) ->
  forEach funcs input_ids data
  = Return (fold_left (fun d func => state_of (func input_ids d)) funcs data).
Proof.
  revert data. induction funcs as [|func funcs IH]; intros data Hret; simpl.
  - done.
  - pose proof (Hret func data (list_elem_of_here _ _)) as Hfunc.
    destruct (func input_ids data) as [data'|data']; [|done]. simpl.
    apply IH. intros func' d Hin. apply Hret. by right.
Qed.

(** An array that is no row of the batch is not touched, also when a
    processor throws. *)
Lemma for_of_frame funcs (input_ids : list Z) (batchedLogits : list nat)
    (h : Heap) (l : nat) :
  l ∉ batchedLogits ->
  state_of (for_of funcs input_ids batchedLogits h) l = h l.
Proof.
  revert h.
  induction batchedLogits as [|logits rest IH]; intros h Hl; simpl; [done|].
  apply not_elem_of_cons in Hl as [Hne Hl].
  destruct (forEach funcs input_ids (h logits)) as [data'|data'].
  - rewrite IH by done. by rewrite fn_lookup_insert_ne.
  - simpl. by rewrite fn_lookup_insert_ne.
Qed.

(** Once a call has thrown, no later call changes anything. *)
Lemma invoke_thrown (input_ids : list Z) cs (h : Heap) :
  fold_left (Schedule.invoke input_ids) cs (Throw h) = Throw h.
Proof. induction cs as [|call cs IH]; [done|]. apply IH. Qed.

Lemma same_outcome_refl c : Schedule.same_outcome c c.
Proof. done. Qed.

Lemma same_outcome_sym c1 c2 :
  Schedule.same_outcome c1 c2 -> Schedule.same_outcome c2 c1.
Proof. intros [Hr Hs]. split; [done|]. intros l. by rewrite Hs. Qed.

Lemma same_outcome_trans c1 c2 c3 :
  Schedule.same_outcome c1 c2 -> Schedule.same_outcome c2 c3 ->
  Schedule.same_outcome c1 c3.
Proof.
  intros [Hr Hs] [Hr' Hs']. split; [congruence|].
  intros l. by rewrite Hs, Hs'.
Qed.

(** A call sees only the array of its row. *)
Lemma invoke_same_outcome (input_ids : list Z) c1 c2 call :
  Schedule.same_outcome c1 c2 ->
  Schedule.same_outcome (Schedule.invoke input_ids c1 call)
    (Schedule.invoke input_ids c2 call).
Proof.
  intros [Hr Hs]. destruct c1 as [h1|h1], c2 as [h2|h2]; try done.
  simpl in Hs. unfold Schedule.invoke. rewrite (Hs call.1).
  destruct (call.2 input_ids (h2 call.1)) as [d|d]; (split; [done|]);
    intros l; simpl;
    (destruct (decide (call.1 = l)) as [<-|Hne];
     [by rewrite !fn_lookup_insert|by rewrite !fn_lookup_insert_ne]).
Qed.

Lemma run_same_outcome (input_ids : list Z) cs c1 c2 :
  Schedule.same_outcome c1 c2 ->
  Schedule.same_outcome (fold_left (Schedule.invoke input_ids) cs c1)
    (fold_left (Schedule.invoke input_ids) cs c2).
Proof.
  revert c1 c2. induction cs as [|call cs IH]; intros c1 c2 Hc; [done|].
  simpl. by apply IH, invoke_same_outcome.
Qed.

(** The calls of one row are the loop [forEach] on the array of the row. *)
Lemma run_row funcs (input_ids : list Z) (logits : nat) (h : Heap) :
  Schedule.same_outcome
    (fold_left (Schedule.invoke input_ids)
       ((fun func => (logits, func)) <$> funcs) (Return h))
    (match forEach funcs input_ids (h logits) with
     | Return data' => Return (<[logits := data']> h)
     | Throw data' => Throw (<[logits := data']> h)
     end).
Proof.
  revert h. induction funcs as [|func funcs IH]; intros h.
  { split; [done|]. intros l. simpl.
    destruct (decide (logits = l)) as [<-|Hne];
      [by rewrite fn_lookup_insert|by rewrite fn_lookup_insert_ne]. }
  simpl. destruct (func input_ids (h logits)) as [d|d].
  - eapply same_outcome_trans; [apply IH|].
    rewrite fn_lookup_insert.
    destruct (forEach funcs input_ids d) as [d'|d']; (split; [done|]);
      intros l; simpl;
      (destruct (decide (logits = l)) as [<-|Hne];
       [by rewrite !fn_lookup_insert|by rewrite !fn_lookup_insert_ne]).
  - rewrite invoke_thrown. apply same_outcome_refl.
Qed.

(** The two loops of [_call] make the calls of the batch in their order. *)
Lemma for_of_run funcs (input_ids : list Z) (batchedLogits : list nat)
    (h : Heap) :
  Schedule.same_outcome (for_of funcs input_ids batchedLogits h)
    (Schedule.run input_ids (Schedule.calls funcs batchedLogits) h).
Proof.
  unfold Schedule.run, Schedule.calls. revert h.
  induction batchedLogits as [|logits rest IH]; intros h; [done|].
  simpl. rewrite fold_left_app.
  eapply same_outcome_trans;
    [|apply run_same_outcome, same_outcome_sym, run_row].
  destruct (forEach funcs input_ids (h logits)) as [d|d].
  - apply IH.
  - rewrite invoke_thrown. apply same_outcome_refl.
Qed.

(** When [forEach] returns, it returns what the processors leave, applied
    from first to last. *)
Lemma forEach_through funcs (input_ids : list Z) (data : TypedArray) :
  returns (forEach funcs input_ids data) = true ->
  forEach funcs input_ids data
  = Return (Schedule.through funcs input_ids data).
Proof.
  unfold Schedule.through. revert data.
  induction funcs as [|func funcs IH]; intros data; simpl; [done|].
  destruct (func input_ids data) as [d|d]; [apply IH|done].
Qed.

(** C1. [push] and [extend] add processors at the end.  For every list of
    processors, batch and history, the call makes the calls of the batch in
    order: the rows in the order of the batch and, for each row, the
    processors from first to last, each on the array of that row as the
    calls before left it and each with the one [input_ids] of the call; it
    stops at the first call that throws.  An array that is not a row of the
    batch is left as it is.  When the calls of the run return, the call
    returns and each array has been taken through the processors once for
    every row in which it occurs. *)
Theorem apply_batch_spec (this : t) (input_ids : list Z)
    (batchedLogits : list nat) (h : Heap) :
  (forall item items,
     processors (push this item) = processors this ++ [item]
     /\ processors (extend this items) = processors this ++ items)
  /\ Schedule.same_outcome (_call this input_ids batchedLogits h)
       (Schedule.run input_ids
          (Schedule.calls (processors this) batchedLogits) h)
  /\ (forall l, l ∉ batchedLogits ->
        state_of (_call this input_ids batchedLogits h) l = h l)
  /\ ((forall l k, (k < count_occ Nat.eq_dec batchedLogits l)%nat ->
          returns (forEach (processors this) input_ids
                     (Nat.iter k
                        (Schedule.through (processors this) input_ids)
                        (h l)))
          = true) ->
      exists h',
        _call this input_ids batchedLogits h = Return h'
        /\ forall l,
             h' l
             = Nat.iter (count_occ Nat.eq_dec batchedLogits l)
                 (Schedule.through (processors this) input_ids) (h l)).
Proof.
  split; [done|]. split; [apply for_of_run|].
  split; [intros l; apply for_of_frame|].
  unfold _call. revert h.
  induction batchedLogits as [|logits rest IH]; intros h Hret; simpl.
  { by exists h. }
  rewrite forEach_through.
  2:{ apply (Hret logits 0%nat). simpl.
      destruct (Nat.eq_dec logits logits); [lia|done]. }
  destruct (IH (<[logits := Schedule.through (processors this) input_ids
                              (h logits)]> h)) as (h' & -> & Hh').
  { intros l k Hk. destruct (Nat.eq_dec logits l) as [->|Hne].
    - rewrite fn_lookup_insert, <-Nat.iter_succ_r. apply Hret. simpl.
      destruct (Nat.eq_dec l l); [lia|done].
    - rewrite fn_lookup_insert_ne by done. apply Hret. simpl.
      by destruct (Nat.eq_dec logits l). }
  exists h'. split; [done|]. intros l. rewrite Hh'.
  destruct (Nat.eq_dec logits l) as [->|Hne].
  - rewrite fn_lookup_insert. by rewrite Nat.iter_succ_r.
  - by rewrite fn_lookup_insert_ne.
Qed.

End logits_processor_list.

Section logits_processor_list_example.
Import LogitsProcessorList.

Lemma apply_batch_spec_witness :
  exists h',
    _call Example.timestamps_then_halve [0; 0; 3; 0] [0%nat; 1%nat]
      Example.vocabulary_heap
    = Return h'
    /\ h' 0%nat
       = [neg_Infinity; neg_Infinity; neg_Infinity; of_Z 4; of_Z 9; of_Z 4]
    /\ h' 2%nat = Example.scores.
Proof.
  destruct (proj2 (proj2 (proj2 (apply_batch_spec
              Example.timestamps_then_halve [0; 0; 3; 0] [0%nat; 1%nat]
              Example.vocabulary_heap))))
    as (h' & Hcall & Hh').
  { intros [|[|l]] k Hk; simpl in Hk.
    - assert (k = 0%nat) as -> by lia. vm_compute. reflexivity.
    - assert (k = 0%nat) as -> by lia. vm_compute. reflexivity.
    - lia. }
  exists h'. split; [exact Hcall|]. rewrite !Hh'.
  split; vm_compute; reflexivity.
Defined.

End logits_processor_list_example.

(** * Further properties *)

(** ** Forcing a token *)

Section forcing.
Import ForceTokensLogitsProcessor.

Lemma fill_fill (a : TypedArray) v w : JS.fill (JS.fill a v) w = JS.fill a w.
Proof.
  apply array_eq. intros i. rewrite !get_fill. by destruct (get a i).
Qed.

Lemma force_tokens_forced this (input_ids : list Z) (data : TypedArray) t :
  force_token_map this !! length_of input_ids = Some (value t) ->
  _call this input_ids data = JS.set (JS.fill data neg_Infinity) t zero.
Proof. intros Ht. unfold _call, property. by rewrite Ht. Qed.

(** X1. When no pair of [forced_decoder_ids] names the length of the
    history, and in particular when [forced_decoder_ids] is absent, [null]
    or empty, the call leaves the array as it is. *)
Theorem force_tokens_without_step
    (forced_decoder_ids : optional (list (Z * optional Z)))
    (input_ids : list Z) (data : TypedArray) :
  length_of input_ids ∉ (nullish forced_decoder_ids []).*1 ->
  _call (constructor forced_decoder_ids) input_ids data = data.
Proof.
  intros Hstep. apply force_tokens_call_no_entry. simpl.
  rewrite fromEntries_lookup.
  induction (nullish forced_decoder_ids []) as [|kv entries IH]; [done|].
  apply not_elem_of_cons in Hstep as [Hne Hstep].
  rewrite filter_cons_False by done. by apply IH.
Qed.

Lemma force_tokens_without_step_witness :
  _call (constructor (value [(1, value 2); (2, value 0)])) [7; 7; 7]
    Example.scores
  = Example.scores.
Proof.
  apply force_tokens_without_step. simpl.
  intros Hin. apply elem_of_cons in Hin as [Heq|Hin]; [discriminate|].
  apply elem_of_cons in Hin as [Heq|Hin]; [discriminate|].
  by apply elem_of_nil in Hin.
Defined.

(** X2. When several pairs name the same step, the token of the last of
    them is the one that is forced. *)
Theorem force_tokens_last_pair_wins
    (before after : list (Z * optional Z)) (t : Z)
    (input_ids : list Z) (data : TypedArray) :
  length_of input_ids ∉ after.*1 ->
  forall i x, get data i = Some x ->
    get (_call (constructor
                  (value (before ++ (length_of input_ids, value t) :: after)))
           input_ids data) i
    = Some (if decide (i = t) then zero else neg_Infinity).
Proof.
  intros Hafter i x Hx. rewrite (force_tokens_forced _ _ _ t).
  - case_decide as Hi.
    + subst i. eapply get_set_eq. by rewrite get_fill, Hx.
    + rewrite get_set_ne by done. by rewrite get_fill, Hx.
  - simpl. rewrite fromEntries_lookup, filter_app, filter_cons_True by done.
    assert (filter (fun kv : Z * optional Z => kv.1 = length_of input_ids)
              after = []) as ->.
    { induction after as [|kv after IH]; [done|].
      apply not_elem_of_cons in Hafter as [Hne Hafter].
      rewrite filter_cons_False by done. by apply IH. }
    by rewrite last_snoc.
Qed.

Lemma force_tokens_last_pair_wins_witness :
  get (_call (constructor (value [(1, value 4); (2, value 0); (1, value 2)]))
         [7] Example.scores) 2
  = Some zero.
Proof.
  apply (force_tokens_last_pair_wins [(1, value 4); (2, value 0)] [] 2 [7]
           Example.scores ltac:(apply not_elem_of_nil) 2 (of_Z 7) eq_refl).
Defined.

(** X3. Calling the processor again with the same history changes nothing
    more. *)
Theorem force_tokens_idempotent this (input_ids : list Z)
    (data : TypedArray) :
  _call this input_ids (_call this input_ids data)
  = _call this input_ids data.
Proof.
  destruct (force_token_map this !! length_of input_ids) as [[| |t]|] eqn:Ht.
  - unfold _call, property. by rewrite Ht.
  - unfold _call, property. by rewrite Ht.
  - rewrite !(force_tokens_forced _ _ _ t Ht). by rewrite fill_set, fill_fill.
  - by rewrite !force_tokens_call_no_entry.
Qed.

(** X4. [ForcedBOSTokenLogitsProcessor] with token [b] does what
    [ForceTokensLogitsProcessor] does with the single pair [(1, b)]. *)
Theorem forced_bos_as_force_tokens (bos_token_id : Z) (input_ids : list Z)
    (data : TypedArray) :
  ForcedBOSTokenLogitsProcessor._call
    (ForcedBOSTokenLogitsProcessor.constructor bos_token_id) input_ids data
  = _call (constructor (value [(1, value bos_token_id)])) input_ids data.
Proof.
  unfold ForcedBOSTokenLogitsProcessor._call, _call, property.
  change (force_token_map (constructor (value [(1, value bos_token_id)])))
    with (<[1 := value bos_token_id]> (∅ : gmap Z (optional Z))).
  destruct (Z.eqb_spec (length_of input_ids) 1) as [->|Hne].
  - by rewrite lookup_insert_eq.
  - by rewrite lookup_insert_ne, lookup_empty.
Qed.

(** X5. [ForcedBOSTokenLogitsProcessor] acts exactly when the history has
    one element: it then leaves [0] at [bos_token_id] and negative infinity
    at every other index; with any other history it leaves the array as it
    is. *)
Theorem forced_bos_call_spec (bos_token_id : Z) (input_ids : list Z)
    (data : TypedArray) :
  let this := ForcedBOSTokenLogitsProcessor.constructor bos_token_id in
  (length_of input_ids = 1 ->
   forall i x, get data i = Some x ->
     get (ForcedBOSTokenLogitsProcessor._call this input_ids data) i
     = Some (if decide (i = bos_token_id) then zero else neg_Infinity))
  /\ (length_of input_ids <> 1 ->
      ForcedBOSTokenLogitsProcessor._call this input_ids data = data).
Proof.
  intros this. unfold ForcedBOSTokenLogitsProcessor._call. split.
  - intros -> i x Hx. simpl. case_decide as Hi.
    + subst i. eapply get_set_eq. by rewrite get_fill, Hx.
    + rewrite get_set_ne by done. by rewrite get_fill, Hx.
  - intros Hne. by rewrite (proj2 (Z.eqb_neq _ _) Hne).
Qed.

Lemma forced_bos_call_spec_witness :
  get (ForcedBOSTokenLogitsProcessor._call
         (ForcedBOSTokenLogitsProcessor.constructor 1) [0] Example.scores) 1
  = Some zero
  /\ ForcedBOSTokenLogitsProcessor._call
       (ForcedBOSTokenLogitsProcessor.constructor 1) [0; 1] Example.scores
     = Example.scores.
Proof.
  split.
  - apply (proj1 (forced_bos_call_spec 1 [0] Example.scores) eq_refl
             1 (of_Z 6) eq_refl).
  - apply (proj2 (forced_bos_call_spec 1 [0; 1] Example.scores)).
    discriminate.
Defined.

(** X6. When the forced token is not an index of the array, the call
    leaves negative infinity everywhere: no token can be chosen. *)
Theorem force_tokens_outside_vocabulary this (input_ids : list Z)
    (data : TypedArray) (t : Z) :
  force_token_map this !! length_of input_ids = Some (value t) ->
  get data t = None ->
  forall i x, get data i = Some x ->
    get (_call this input_ids data) i = Some neg_Infinity.
Proof.
  intros Ht Hout i x Hx. rewrite (force_tokens_forced _ _ _ t Ht).
  rewrite get_set_outside by (by rewrite get_fill, Hout).
  by rewrite get_fill, Hx.
Qed.

Lemma force_tokens_outside_vocabulary_witness :
  get (_call (constructor (value [(1, value 6)])) [7] Example.scores) 5
  = Some neg_Infinity.
Proof.
  apply (force_tokens_outside_vocabulary
           (constructor (value [(1, value 6)])) [7] Example.scores 6
           eq_refl eq_refl 5 (of_Z 4) eq_refl).
Defined.

End forcing.

(** ** Lists of processors *)

Section processor_lists.
Import LogitsProcessorList.

(** What the processors [funcs] make of one array when they all return. *)
Lemma for_of_returning funcs (input_ids : list Z) (batchedLogits : list nat)
    (h : Heap) :
  (forall func d, func ∈ funcs -> returns (func input_ids d) = true) ->
  returns (for_of funcs input_ids batchedLogits h) = true
  /\ forall l,
       state_of (for_of funcs input_ids batchedLogits h) l
       = Nat.iter (count_occ Nat.eq_dec batchedLogits l)
           (fun data =>
              fold_left (fun d func => state_of (func input_ids d)) funcs data)
           (h l).
Proof.
  intros Hret. revert h.
  induction batchedLogits as [|logits rest IH]; intros h; simpl; [done|].
  rewrite forEach_returns by done.
  destruct (IH (<[logits := fold_left
                    (fun d func => state_of (func input_ids d))
                    funcs (h logits)]> h)) as [Hr Hs].
  split; [done|]. intros l. rewrite Hs.
  destruct (Nat.eq_dec logits l) as [->|Hne].
  - rewrite fn_lookup_insert. by rewrite Nat.iter_succ_r.
  - by rewrite fn_lookup_insert_ne.
Qed.

(** X7. A list that holds [ForcedEOSTokenLogitsProcessor], or a processor
    that does not override [_call], after processors that return, throws on
    every batch that is not empty.  It stops in the first row: that row's
    array holds what the earlier processors made of it, and no other array
    has been touched. *)
Theorem unimplemented_processor_aborts
    (before after : list LogitsProcessor)
    (eos : ForcedEOSTokenLogitsProcessor.t) (input_ids : list Z)
    (logits : nat) (rest : list nat) (h : Heap) :
  (forall func d, func ∈ before -> returns (func input_ids d) = true) ->
  _call {| processors :=
             before ++ ForcedEOSTokenLogitsProcessor._call eos :: after |}
    input_ids (logits :: rest) h
  = Throw (<[logits :=
               fold_left (fun d func => state_of (func input_ids d))
                 before (h logits)]> h)
  /\ _call {| processors := before ++ LogitsProcessorBase._call :: after |}
       input_ids (logits :: rest) h
     = Throw (<[logits :=
                  fold_left (fun d func => state_of (func input_ids d))
                    before (h logits)]> h).
Proof.
  intros Hret. unfold _call. simpl.
  by rewrite !forEach_app, !forEach_returns by done.
Qed.

Lemma unimplemented_processor_aborts_witness :
  exists h',
    _call {| processors :=
               [Example.halve;
                ForcedEOSTokenLogitsProcessor._call
                  (ForcedEOSTokenLogitsProcessor.constructor 20 1);
                Example.halve] |}
      [0] [0%nat; 1%nat] Example.heap
    = Throw h'
    /\ h' 0%nat = [of_Z 4; of_Z (-3)]
    /\ h' 1%nat = Example.heap 1%nat.
Proof.
  eexists. split.
  - apply (proj1 (unimplemented_processor_aborts [Example.halve]
                    [Example.halve]
                    (ForcedEOSTokenLogitsProcessor.constructor 20 1)
                    [0] 0%nat [1%nat] Example.heap
                    ltac:(intros func d Hin;
                          apply list_elem_of_singleton in Hin as ->;
                          reflexivity))).
  - split; reflexivity.
Defined.

(** X8. A list without processors returns and leaves every array as it
    is. *)
Theorem empty_list_changes_nothing (input_ids : list Z)
    (batchedLogits : list nat) (h : Heap) :
  returns (_call constructor input_ids batchedLogits h) = true
  /\ forall l, state_of (_call constructor input_ids batchedLogits h) l = h l.
Proof.
  destruct (for_of_returning [] input_ids batchedLogits h) as [Hr Hs].
  { by intros func d ?%elem_of_nil. }
  split; [done|]. intros l. unfold _call. simpl. rewrite Hs. simpl.
  induction (count_occ Nat.eq_dec batchedLogits l) as [|k IH]; [done|].
  by rewrite Nat.iter_succ.
Qed.

(** X9. On a batch whose rows are different arrays, and with processors
    that return, a list extended by [items] does what the list does first
    and the processors [items] do afterwards. *)
Theorem extend_runs_afterwards (this : t) (items : list LogitsProcessor)
    (input_ids : list Z) (batchedLogits : list nat) (h : Heap) :
  NoDup batchedLogits ->
  (forall func d, func ∈ processors this ++ items ->
     returns (func input_ids d) = true) ->
  forall l,
    state_of (_call (extend this items) input_ids batchedLogits h) l
    = state_of (_call {| processors := items |} input_ids batchedLogits
                  (state_of (_call this input_ids batchedLogits h))) l.
Proof.
  intros Hnodup Hret l. unfold _call. simpl.
  destruct (for_of_returning (processors this ++ items) input_ids
              batchedLogits h Hret) as [_ ->].
  destruct (for_of_returning (processors this) input_ids batchedLogits h)
    as [_ Hthis].
  { intros func d Hin. apply Hret, elem_of_app. by left. }
  destruct (for_of_returning items input_ids batchedLogits
              (state_of (for_of (processors this) input_ids batchedLogits h)))
    as [_ ->].
  { intros func d Hin. apply Hret, elem_of_app. by right. }
  rewrite Hthis.
  pose proof (proj1 (NoDup_count_occ Nat.eq_dec batchedLogits)
                ((proj1 (NoDup_ListNoDup batchedLogits)) Hnodup) l) as Hle.
  destruct (count_occ Nat.eq_dec batchedLogits l) as [|[|k]]; [done| |lia].
  simpl. by rewrite fold_left_app.
Qed.

Lemma extend_runs_afterwards_witness :
  state_of (_call (extend Example.chain [Example.halve]) [0] [0%nat; 1%nat]
              Example.heap) 0%nat
  = state_of (_call {| processors := [Example.halve] |} [0] [0%nat; 1%nat]
                (state_of (_call Example.chain [0] [0%nat; 1%nat]
                             Example.heap))) 0%nat.
Proof.
  apply (extend_runs_afterwards Example.chain [Example.halve] [0]
           [0%nat; 1%nat] Example.heap).
  - apply NoDup_cons. split.
    + intros Hin. apply list_elem_of_singleton in Hin. discriminate.
    + apply NoDup_singleton.
  - intros func d Hin. simpl in Hin.
    repeat (apply elem_of_cons in Hin as [->|Hin]; [reflexivity|]).
    by apply elem_of_nil in Hin.
Defined.

(** X10. With processors that return, the order of the rows of the batch
    does not matter: every array ends up the same. *)
Theorem row_order_is_irrelevant (this : t) (input_ids : list Z)
    (batchedLogits batchedLogits' : list nat) (h : Heap) :
  batchedLogits ≡ₚ batchedLogits' ->
  (forall func d, func ∈ processors this ->
     returns (func input_ids d) = true) ->
  forall l,
    state_of (_call this input_ids batchedLogits h) l
    = state_of (_call this input_ids batchedLogits' h) l.
Proof.
  intros Hperm Hret l. unfold _call.
  destruct (for_of_returning (processors this) input_ids batchedLogits h Hret)
    as [_ ->].
  destruct (for_of_returning (processors this) input_ids batchedLogits' h Hret)
    as [_ ->].
  by rewrite (proj1 (Permutation_count_occ Nat.eq_dec _ _) Hperm l).
Qed.

Lemma row_order_is_irrelevant_witness :
  state_of (_call Example.chain [0] [0%nat; 1%nat] Example.heap) 1%nat
  = state_of (_call Example.chain [0] [1%nat; 0%nat] Example.heap) 1%nat.
Proof.
  apply (row_order_is_irrelevant Example.chain [0] [0%nat; 1%nat]
           [1%nat; 0%nat] Example.heap).
  - apply perm_swap.
  - intros func d Hin. simpl in Hin.
    repeat (apply elem_of_cons in Hin as [->|Hin]; [reflexivity|]).
    by apply elem_of_nil in Hin.
Defined.

End processor_lists.

(** ** More on the repetition penalty *)

Section repetition_penalty_more.
Import RepetitionPenaltyLogitsProcessor.

Lemma length_penalise this (data : TypedArray) input_id :
  length (penalise this data input_id) = length data.
Proof. unfold penalise. case_match; apply length_set. Qed.

Lemma penalise_swap this (data : TypedArray) a b :
  penalise this (penalise this data a) b
  = penalise this (penalise this data b) a.
Proof.
  apply array_eq. intros i. rewrite !get_penalise.
  repeat case_decide; try done; congruence.
Qed.

(** X11. The order of the history does not matter: two histories with the
    same tokens, each as often, give the same scores. *)
Theorem repetition_penalty_order_irrelevant this
    (input_ids input_ids' : list Z) (data : TypedArray) :
  input_ids ≡ₚ input_ids' ->
  _call this input_ids data = _call this input_ids' data.
Proof.
  intros Hperm. unfold _call. revert data.
  induction Hperm as [|x l l' _ IH|x y l|l l' l'' _ IH1 _ IH2];
    intros data; simpl.
  - done.
  - apply IH.
  - by rewrite penalise_swap.
  - by rewrite IH1.
Qed.

Lemma repetition_penalty_order_irrelevant_witness :
  _call (constructor (of_Z 2)) [0; 1; 0] [of_Z 8; of_Z (-3)]
  = _call (constructor (of_Z 2)) [1; 0; 0] [of_Z 8; of_Z (-3)].
Proof.
  apply repetition_penalty_order_irrelevant. apply perm_swap.
Defined.

Lemma penalise_outside this (data : TypedArray) input_id :
  get data input_id = None -> penalise this data input_id = data.
Proof.
  intros Hout. apply array_eq. intros i. rewrite get_penalise.
  case_decide; [subst i; by rewrite Hout|done].
Qed.

(** X12. Tokens of the history that are not indices of the array, negative
    ones included, are skipped: the result is that of the history without
    them. *)
Theorem repetition_penalty_skips_outside this (input_ids : list Z)
    (data : TypedArray) :
  _call this input_ids data
  = _call this
      (filter (fun input_id => 0 <= input_id < length_of data) input_ids)
      data.
Proof.
  unfold _call. revert data.
  induction input_ids as [|input_id input_ids IH]; intros data; [done|].
  simpl. destruct (decide (0 <= input_id < length_of data)) as [Hin|Hout].
  - rewrite filter_cons_True by done. simpl. rewrite IH.
    unfold length_of. by rewrite length_penalise.
  - rewrite filter_cons_False by done. rewrite penalise_outside; [apply IH|].
    destruct (get data input_id) as [x|] eqn:Hx; [|done].
    by apply get_Some_range in Hx.
Qed.

(** A score that is negative infinity or [0] is not changed by a penalty
    that is positive and finite. *)
Lemma transform_forced (m : positive) (e : Z) x :
  x = neg_Infinity \/ x = zero ->
  Penalty.transform (S754_finite false m e) x = x.
Proof. by intros [->| ->]. Qed.

(** X13. A penalty that is positive and finite does not undo a forced
    token: after [ForceTokensLogitsProcessor] has forced a token, the
    repetition penalty leaves the array as it is, for any history. *)
Theorem repetition_penalty_keeps_forced_token this
    (m : positive) (e : Z)
    (forced : ForceTokensLogitsProcessor.t) (t : Z)
    (input_ids history : list Z) (data : TypedArray) :
  penalty this = S754_finite false m e ->
  ForceTokensLogitsProcessor.force_token_map forced !! length_of input_ids
  = Some (value t) ->
  _call this history (ForceTokensLogitsProcessor._call forced input_ids data)
  = ForceTokensLogitsProcessor._call forced input_ids data.
Proof.
  intros Hp Ht. rewrite (force_tokens_forced _ _ _ t Ht).
  set (d := JS.set _ _ _).
  assert (forall i x, get d i = Some x -> x = neg_Infinity \/ x = zero)
    as Hd.
  { intros i x. unfold d.
    destruct (decide (t = i)) as [->|Hne].
    - destruct (get (JS.fill data neg_Infinity) i) as [y|] eqn:Hy.
      + rewrite (get_set_eq _ _ _ _ Hy). intros [= <-]. by right.
      + by rewrite get_set_outside, Hy.
    - rewrite get_set_ne, get_fill by done.
      destruct (get data i); [|done]. intros [= <-]. by left. }
  clearbody d. unfold _call.
  induction history as [|input_id history IH]; [done|]. simpl.
  assert (penalise this d input_id = d) as ->; [|done].
  apply array_eq. intros i. rewrite get_penalise.
  case_decide; [|done]. destruct (get d i) as [x|] eqn:Hx; [|done].
  simpl. rewrite Hp. f_equal. eapply transform_forced, Hd. done.
Qed.

Lemma repetition_penalty_keeps_forced_token_witness :
  _call (constructor (of_Z 2)) [3; 3; 0]
    (ForceTokensLogitsProcessor._call
       (ForceTokensLogitsProcessor.constructor (value [(1, value 3)]))
       [0] Example.scores)
  = ForceTokensLogitsProcessor._call
      (ForceTokensLogitsProcessor.constructor (value [(1, value 3)]))
      [0] Example.scores.
Proof.
  apply (repetition_penalty_keeps_forced_token (constructor (of_Z 2))
           4503599627370496 (-51)
           (ForceTokensLogitsProcessor.constructor (value [(1, value 3)])) 3
           [0] [3; 3; 0] Example.scores eq_refl eq_refl).
Defined.

End repetition_penalty_more.

(** ** More on repeated n-grams *)

Section no_repeat_ngram_more.
Import NoRepeatNGramLogitsProcessor.

Lemma fold_ban_undefined (tokens : list (option Z)) (data : TypedArray) :
  Forall (fun token => token = None) tokens ->
  fold_left ban tokens data = data.
Proof.
  induction 1 as [|token tokens -> _ IH]; [done|]. simpl. apply IH.
Qed.

(** For a size that is not positive every n-gram is empty, and what is
    recorded as its last element is [undefined]. *)
Lemma calcBannedNgramTokens_nonpositive (n : Z) (prevInputIds : list Z) :
  n <= 0 ->
  Forall (fun token => token = None) (calcBannedNgramTokens n prevInputIds).
Proof.
  intros Hn. unfold calcBannedNgramTokens, getGeneratedNgrams.
  case_match; [by apply Forall_nil|].
  rewrite getNgrams_lookup. unfold NGram.followers.
  apply Forall_fmap, Forall_forall. intros ngram Hin.
  apply list_elem_of_filter in Hin as [_ Hin].
  unfold ngrams_of in Hin. apply list_elem_of_fmap in Hin as (j & -> & _).
  by replace (Z.to_nat n) with 0%nat by lia.
Qed.

(** X14. With a size that is not positive, such as the default [0] of
    [no_repeat_ngram_size], the call leaves the array as it is. *)
Theorem no_repeat_ngram_nonpositive (n : Z) (input_ids : list Z)
    (data : TypedArray) :
  n <= 0 ->
  _call (constructor n) input_ids data = data.
Proof.
  intros Hn. unfold _call. simpl.
  by apply fold_ban_undefined, calcBannedNgramTokens_nonpositive.
Qed.

Lemma no_repeat_ngram_nonpositive_witness :
  _call (constructor 0) [5; 3; 5; 3] Example.scores = Example.scores.
Proof. apply no_repeat_ngram_nonpositive. lia. Defined.

(** A banned token is a token of the history. *)
Lemma banned_in_history (n : nat) (input_ids : list Z) (t : Z) :
  NGram.banned n input_ids t -> t ∈ input_ids.
Proof.
  intros (j & _ & _ & Hlast). apply last_Some_elem_of in Hlast.
  unfold NGram.window in Hlast.
  by apply subseteq_take, subseteq_drop in Hlast.
Qed.

(** X15. Whatever the size, the score of a token that does not occur in
    the history is left as it is. *)
Theorem no_repeat_ngram_keeps_unseen (n : Z) (input_ids : list Z)
    (data : TypedArray) (i : Z) :
  i ∉ input_ids ->
  get (_call (constructor n) input_ids data) i = get data i.
Proof.
  intros Hi. destruct (decide (n <= 0)) as [Hn|Hn].
  { unfold _call. simpl.
    by rewrite fold_ban_undefined
      by by apply calcBannedNgramTokens_nonpositive. }
  unfold _call. simpl. rewrite get_fold_ban, decide_False; [done|].
  rewrite <-(Z2Nat.id n) by lia.
  intros (t & [= <-] & Hb)%calcBannedNgramTokens_spec; [|lia].
  by apply banned_in_history in Hb.
Qed.

Lemma no_repeat_ngram_keeps_unseen_witness :
  get (_call (constructor 2) [5; 3; 5; 3] Example.scores) 4
  = get Example.scores 4.
Proof.
  apply no_repeat_ngram_keeps_unseen. intros Hin.
  repeat (apply elem_of_cons in Hin as [Heq|Hin]; [discriminate|]).
  by apply elem_of_nil in Hin.
Defined.

(** X16. With size 1 every token of the history is banned, and no other. *)
Theorem no_repeat_ngram_size_one (input_ids : list Z) (data : TypedArray)
    (i : Z) :
  get (_call (constructor 1) input_ids data) i
  = if decide (i ∈ input_ids)
    then (fun _ => neg_Infinity) <$> get data i
    else get data i.
Proof.
  unfold _call. simpl. rewrite get_fold_ban. apply decide_ext.
  rewrite (calcBannedNgramTokens_spec 1) by lia. split.
  - intros (t & [= <-] & Hb). by apply banned_in_history in Hb.
  - intros Hin. exists i. split; [done|].
    apply list_elem_of_lookup in Hin as [j Hj]. exists j.
    unfold NGram.window, NGram.recent.
    rewrite (drop_S _ _ _ Hj). simpl. rewrite Nat.sub_0_r, drop_all.
    apply lookup_lt_Some in Hj. split; [lia|done].
Qed.

(** X17. A history with fewer than [n] tokens bans nothing; this includes
    the history with [n - 1] tokens, which gets past the guard of
    [calcBannedNgramTokens] and then finds no n-gram. *)
Theorem no_repeat_ngram_short_history (n : Z) (input_ids : list Z)
    (data : TypedArray) :
  length_of input_ids < n ->
  calcBannedNgramTokens n input_ids = []
  /\ _call (constructor n) input_ids data = data.
Proof.
  intros Hshort.
  assert (calcBannedNgramTokens n input_ids = []) as Hnone.
  { unfold calcBannedNgramTokens, getGeneratedNgrams.
    case_match; [done|]. rewrite getNgrams_lookup.
    unfold ngrams_of.
    by replace (Z.to_nat (length_of input_ids + 1 - n)) with 0%nat by lia. }
  split; [done|]. unfold _call. simpl. by rewrite Hnone.
Qed.

Lemma no_repeat_ngram_short_history_witness :
  _call (constructor 3) [5; 3] Example.scores = Example.scores.
Proof.
  apply (proj2 (no_repeat_ngram_short_history 3 [5; 3] Example.scores
                  ltac:(unfold length_of; simpl; lia))).
Defined.

End no_repeat_ngram_more.

(** ** More on the timestamp rules *)

Section whisper_more.
Import WhisperTimeStampLogitsProcessor.
Context `{Runtime}.

Lemma get_same_length (a b : TypedArray) i x :
  length a = length b -> get a i = Some x -> is_Some (get b i).
Proof.
  intros Hlen Hx%get_Some_range. apply get_range_Some.
  unfold length_of in *. by rewrite <-Hlen.
Qed.

Lemma length_mask_pairs this input_ids (data : TypedArray) :
  length (mask_pairs this input_ids data) = length data.
Proof. unfold mask_pairs. repeat case_match; by rewrite ?length_subarray_fill. Qed.

Lemma length_apply_max_initial_timestamp this input_ids (data : TypedArray) :
  length (apply_max_initial_timestamp this input_ids data) = length data.
Proof.
  unfold apply_max_initial_timestamp.
  case_match; by rewrite ?length_subarray_fill.
Qed.

Lemma length_sample_timestamp this (data : TypedArray) :
  length (state_of (sample_timestamp this data)) = length data.
Proof.
  unfold sample_timestamp.
  repeat case_match; simpl; by rewrite ?length_subarray_fill.
Qed.

Lemma kept_or_suppressed_refl a : kept_or_suppressed a a.
Proof. intros i x Hx. by left. Qed.

Lemma kept_or_suppressed_trans a b c :
  kept_or_suppressed a b -> kept_or_suppressed b c ->
  kept_or_suppressed a c.
Proof.
  intros Hab Hbc i x Hx. destruct (Hab i x Hx) as [Hb|Hb].
  - by apply Hbc.
  - right. by destruct (Hbc i _ Hb).
Qed.

Lemma kept_or_suppressed_fill_between a b e :
  kept_or_suppressed a (fill_between a b e neg_Infinity).
Proof.
  intros i x Hx. rewrite get_fill_between, Hx. simpl.
  case_bool_decide; [by right|by left].
Qed.

Lemma kept_or_suppressed_set a i :
  kept_or_suppressed a (JS.set a i neg_Infinity).
Proof.
  intros j x Hx. destruct (decide (i = j)) as [->|Hne].
  - right. by eapply get_set_eq.
  - left. by rewrite get_set_ne.
Qed.

Lemma kept_or_suppressed_mask_pairs this input_ids a :
  kept_or_suppressed a (mask_pairs this input_ids a).
Proof.
  unfold mask_pairs, subarray_fill.
  repeat case_match; first [apply kept_or_suppressed_fill_between
                           |apply kept_or_suppressed_refl].
Qed.

Lemma kept_or_suppressed_apply_max_initial_timestamp this input_ids a :
  kept_or_suppressed a (apply_max_initial_timestamp this input_ids a).
Proof.
  unfold apply_max_initial_timestamp, subarray_fill.
  case_match; first [apply kept_or_suppressed_fill_between
                    |apply kept_or_suppressed_refl].
Qed.

Lemma kept_or_suppressed_sample_timestamp this a :
  kept_or_suppressed a (state_of (sample_timestamp this a)).
Proof.
  unfold sample_timestamp, subarray_fill.
  repeat case_match; simpl;
    first [apply kept_or_suppressed_fill_between
          |apply kept_or_suppressed_refl].
Qed.

(** X18. Outside the step that forces the first timestamp, the call never
    raises a score and never writes a new finite one: when it stops, each
    score is what it was or negative infinity. *)
Theorem whisper_only_suppresses this (input_ids : list Z)
    (data : TypedArray) :
  length_of input_ids <> begin_index this - 1 ->
  forall i x, get data i = Some x ->
    get (state_of (_call this input_ids data)) i = Some x
    \/ get (state_of (_call this input_ids data)) i = Some neg_Infinity.
Proof.
  intros Hlen. unfold _call. rewrite (proj2 (Z.eqb_neq _ _) Hlen).
  set (d1 := JS.set data (no_timestamps_token_id this) neg_Infinity).
  set (d2 := mask_pairs this input_ids d1).
  set (d3 := apply_max_initial_timestamp this input_ids d2).
  change (kept_or_suppressed data (state_of (sample_timestamp this d3))).
  apply kept_or_suppressed_trans with d1; [apply kept_or_suppressed_set|].
  apply kept_or_suppressed_trans with d2;
    [apply kept_or_suppressed_mask_pairs|].
  apply kept_or_suppressed_trans with d3;
    [apply kept_or_suppressed_apply_max_initial_timestamp|].
  apply kept_or_suppressed_sample_timestamp.
Qed.

(** X19. With a [log_softmax] that keeps the length of its argument, and a
    [timestamp_begin] that is not negative, the call throws exactly when it
    is not the forcing step and the array has no element at
    [timestamp_begin]: [reduce] then runs on an empty array. *)
Theorem whisper_returns_iff this (input_ids : list Z) (data : TypedArray) :
  (forall d, length (log_softmax d) = length d) ->
  0 <= timestamp_begin this ->
  returns (_call this input_ids data) = true
  <-> length_of input_ids = begin_index this - 1
      \/ timestamp_begin this < length_of data.
Proof.
  intros Hsoft Hts. split.
  - unfold _call. destruct (Z.eqb_spec (length_of input_ids)
                              (begin_index this - 1)) as [Heq|Hne].
    { intros _. by left. }
    intros Hret. right. revert Hret. unfold sample_timestamp.
    set (d := apply_max_initial_timestamp _ _ _) in *.
    assert (length d = length data) as Hd.
    { unfold d. by rewrite length_apply_max_initial_timestamp,
        length_mask_pairs, length_set. }
    destruct (Math_exp <$> _) as [|p ps] eqn:Hps; [done|].
    apply (f_equal length) in Hps. rewrite length_fmap in Hps.
    unfold slice, between, relative_index, length_of in Hps.
    rewrite length_take, length_drop, Hsoft, Hd in Hps.
    rewrite (proj2 (Z.ltb_ge _ _)) in Hps by lia.
    unfold length_of. simpl in Hps. lia.
  - intros [Hlen|Hin].
    + unfold _call. by rewrite (proj2 (Z.eqb_eq _ _) Hlen).
    + by apply call_returns.
Qed.

End whisper_more.

Section whisper_more_examples.
Import WhisperTimeStampLogitsProcessor.

Lemma whisper_only_suppresses_witness :
  get (state_of (@_call example_runtime (Example.processor (value 1))
                   [0; 0; 3] Example.scores)) 5
  = Some (of_Z 4)
  \/ get (state_of (@_call example_runtime (Example.processor (value 1))
                      [0; 0; 3] Example.scores)) 5
     = Some neg_Infinity.
Proof.
  apply (@whisper_only_suppresses example_runtime
           (Example.processor (value 1)) [0; 0; 3] Example.scores
           ltac:(discriminate) 5 (of_Z 4) eq_refl).
Defined.

Lemma whisper_returns_iff_witness :
  returns (@_call example_runtime (Example.processor null) [0; 0; 3; 0]
             [of_Z 5; of_Z 6; of_Z 7])
  = false.
Proof.
  apply not_true_is_false. intros Hret.
  apply (proj1 (@whisper_returns_iff example_runtime
                  (Example.processor null) [0; 0; 3; 0]
                  [of_Z 5; of_Z 6; of_Z 7]
                  ltac:(reflexivity) ltac:(simpl; lia))) in Hret.
  destruct Hret as [Hlen|Hin]; [discriminate|].
  unfold length_of in Hin. simpl in Hin. lia.
Defined.

End whisper_more_examples.

(** ** The timestamp rules from end to end *)

Section whisper_end_to_end.
Import WhisperTimeStampLogitsProcessor.
Context `{Runtime}.

Lemma last_is_timestamp_length this (input_ids : list Z) :
  0 <= begin_index this ->
  Pairing.last_is_timestamp this input_ids ->
  begin_index this < length_of input_ids.
Proof.
  intros Hbegin (x & Hlast & _). unfold Pairing.seq in Hlast.
  assert (length (drop (Z.to_nat (begin_index this)) input_ids) <> 0%nat)
    as Hlen.
  { intros Hnil%nil_length_inv. by rewrite Hnil in Hlast. }
  rewrite length_drop in Hlen. unfold length_of. lia.
Qed.

(** X20. What the pairing rule suppresses stays suppressed when the call
    stops, whatever the later steps do.  After two timestamps in a row (or a
    single timestamp) every score from [timestamp_begin] on is negative
    infinity; after a text token and a timestamp every score below
    [eos_token_id] is. *)
Theorem pairs_hold_after_call this (input_ids : list Z) (data : TypedArray) :
  0 <= begin_index this ->
  0 <= timestamp_begin this ->
  0 <= eos_token_id this ->
  Pairing.last_is_timestamp this input_ids ->
  forall i x, get data i = Some x ->
    (Pairing.penultimate_is_timestamp this input_ids ->
     timestamp_begin this <= i ->
     get (state_of (_call this input_ids data)) i = Some neg_Infinity)
    /\ (~ Pairing.penultimate_is_timestamp this input_ids ->
        i < eos_token_id this ->
        get (state_of (_call this input_ids data)) i = Some neg_Infinity).
Proof.
  intros Hbegin Hts Heos Hlast i x Hx.
  pose proof (last_is_timestamp_length _ _ Hbegin Hlast) as Hlen.
  unfold _call. rewrite (proj2 (Z.eqb_neq _ _)) by lia.
  set (d1 := JS.set data (no_timestamps_token_id this) neg_Infinity).
  destruct (get_same_length data d1 i x) as [y Hy];
    [by unfold d1; rewrite length_set|done|].
  apply last_was_timestamp_spec in Hlast; [|done].
  split; intros Hpen Hi;
    apply sample_timestamp_suppressed, apply_max_initial_timestamp_suppressed;
    unfold mask_pairs; rewrite Hlast.
  - apply penultimate_was_timestamp_spec in Hpen; [|done]. rewrite Hpen.
    rewrite get_subarray_fill_from, Hy by done. simpl.
    by rewrite bool_decide_eq_true_2.
  - rewrite <-penultimate_was_timestamp_spec in Hpen by done.
    apply not_true_is_false in Hpen. rewrite Hpen.
    rewrite get_subarray_fill_upto, Hy by done. simpl.
    by rewrite bool_decide_eq_true_2.
Qed.

(** X21. With [max_initial_timestamp_index] set to [m] and a history of
    [begin_index] tokens, every score beyond [timestamp_begin + m] is
    negative infinity when the call stops. *)
Theorem max_initial_timestamp_holds_after_call this (input_ids : list Z)
    (data : TypedArray) (m : Z) :
  max_initial_timestamp_index this = value m ->
  length_of input_ids = begin_index this ->
  0 <= timestamp_begin this + m + 1 ->
  forall i x, get data i = Some x ->
    timestamp_begin this + m < i ->
    get (state_of (_call this input_ids data)) i = Some neg_Infinity.
Proof.
  intros Hm Hlen Hnonneg i x Hx Hi.
  unfold _call. rewrite (proj2 (Z.eqb_neq _ _)) by lia.
  set (d2 := mask_pairs _ _ _).
  destruct (get_same_length data d2 i x) as [y Hy];
    [by unfold d2; rewrite length_mask_pairs, length_set|done|].
  apply sample_timestamp_suppressed.
  rewrite (max_initial_timestamp_set this input_ids d2 m Hm Hlen Hnonneg
             i y Hy).
  by rewrite decide_True.
Qed.

(** X22. The last step never touches a timestamp score: it leaves the
    array as it is, or it suppresses the scores below [timestamp_begin]
    and nothing else. *)
Theorem sample_timestamp_keeps_timestamps this (data : TypedArray) :
  0 <= timestamp_begin this ->
  (forall i, timestamp_begin this <= i ->
     get (state_of (sample_timestamp this data)) i = get data i)
  /\ (state_of (sample_timestamp this data) = data
      \/ forall i x, get data i = Some x -> i < timestamp_begin this ->
           get (state_of (sample_timestamp this data)) i
           = Some neg_Infinity).
Proof.
  intros Hts. unfold sample_timestamp.
  destruct (Math_exp <$> _) as [|p ps]; [by split; [|left]|].
  case_match; simpl; [|by split; [|left]]. split.
  - intros i Hi. rewrite get_subarray_fill_upto by done.
    destruct (get data i); [|done]. simpl.
    by rewrite bool_decide_eq_false_2 by lia.
  - right. intros i x Hx Hi. rewrite get_subarray_fill_upto, Hx by done.
    simpl. by rewrite bool_decide_eq_true_2.
Qed.

(** X23. While the history has at most [begin_index] tokens, that is
    before anything follows the forced prefix, the pairing rule changes
    nothing. *)
Theorem mask_pairs_needs_free_tokens this (input_ids : list Z)
    (data : TypedArray) :
  0 <= begin_index this ->
  length_of input_ids <= begin_index this ->
  mask_pairs this input_ids data = data.
Proof.
  intros Hbegin Hlen. unfold mask_pairs, last_was_timestamp.
  rewrite slice_begin_index by done. unfold Pairing.seq.
  rewrite drop_ge by (unfold length_of in Hlen; lia). done.
Qed.

(** X24. Every processor keeps the length of the array, whether it
    returns or throws. *)
Theorem processors_keep_length (input_ids : list Z) (data : TypedArray) :
  (forall this,
     length (ForceTokensLogitsProcessor._call this input_ids data)
     = length data)
  /\ (forall this,
        length (ForcedBOSTokenLogitsProcessor._call this input_ids data)
        = length data)
  /\ (forall this,
        length (state_of (_call this input_ids data)) = length data)
  /\ (forall this,
        length (NoRepeatNGramLogitsProcessor._call this input_ids data)
        = length data)
  /\ (forall this,
        length (RepetitionPenaltyLogitsProcessor._call this input_ids data)
        = length data).
Proof.
  repeat split; intros this.
  - unfold ForceTokensLogitsProcessor._call.
    repeat case_match; by rewrite ?length_set, ?length_fill.
  - unfold ForcedBOSTokenLogitsProcessor._call.
    case_match; by rewrite ?length_set, ?length_fill.
  - unfold _call. case_match.
    + cbn [state_of]. by rewrite length_set, length_fill, length_set.
    + by rewrite length_sample_timestamp, length_apply_max_initial_timestamp,
        length_mask_pairs, length_set.
  - unfold NoRepeatNGramLogitsProcessor._call.
    generalize (calcBannedNgramTokens
                  (NoRepeatNGramLogitsProcessor.no_repeat_ngram_size this)
                  input_ids).
    intros tokens. revert data.
    induction tokens as [|[t|] tokens IH]; intros data; simpl; [done|..].
    + by rewrite IH, length_set.
    + apply IH.
  - unfold RepetitionPenaltyLogitsProcessor._call. revert data.
    induction input_ids as [|input_id input_ids IH]; intros data; simpl;
      [done|].
    by rewrite IH, length_penalise.
Qed.

End whisper_end_to_end.

Section whisper_end_to_end_examples.
Import WhisperTimeStampLogitsProcessor.

Lemma pairs_hold_after_call_witness :
  get (state_of (@_call example_runtime (Example.processor null)
                   [0; 0; 3; 4] Example.scores)) 4
  = Some neg_Infinity.
Proof.
  apply (proj1 (@pairs_hold_after_call example_runtime
                  (Example.processor null) [0; 0; 3; 4] Example.scores
                  ltac:(simpl; lia) ltac:(simpl; lia) ltac:(simpl; lia)
                  ltac:(exists 4; split; [reflexivity|simpl; lia])
                  4 (of_Z 9) eq_refl)).
  - left. simpl. lia.
  - simpl. lia.
Defined.

Lemma max_initial_timestamp_holds_after_call_witness :
  get (state_of (@_call example_runtime (Example.processor (value 1))
                   [0; 0; 3] Example.scores)) 5
  = Some neg_Infinity.
Proof.
  apply (@max_initial_timestamp_holds_after_call example_runtime
           (Example.processor (value 1)) [0; 0; 3] Example.scores 1
           eq_refl eq_refl ltac:(simpl; lia) 5 (of_Z 4) eq_refl).
  simpl. lia.
Defined.

Lemma sample_timestamp_keeps_timestamps_witness :
  get (state_of (@sample_timestamp example_runtime (Example.processor null)
                   Example.scores)) 4
  = get Example.scores 4.
Proof.
  apply (proj1 (@sample_timestamp_keeps_timestamps example_runtime
                  (Example.processor null) Example.scores
                  ltac:(simpl; lia))).
  simpl. lia.
Defined.

Lemma mask_pairs_needs_free_tokens_witness :
  mask_pairs (Example.processor null) [0; 0; 3] Example.scores
  = Example.scores.
Proof.
  apply mask_pairs_needs_free_tokens.
  - simpl. lia.
  - unfold length_of. simpl. lia.
Defined.

End whisper_end_to_end_examples.

(** ** GenerationConfig *)

Section generation_config.
Import GenerationConfig.

Lemma fold_assign_other kwargs (options : list (string * JsValue))
    (this : gmap string JsValue) (key : string) :
  key ∉ options.*1 ->
  fold_left (assign kwargs) options this !! key = this !! key.
Proof.
  revert this. induction options as [|kd options IH]; intros this Hkey; [done|].
  apply not_elem_of_cons in Hkey as [Hne Hkey]. simpl.
  rewrite IH by done. unfold assign. by rewrite lookup_insert_ne.
Qed.

Lemma fold_assign_option kwargs (options : list (string * JsValue))
    (this : gmap string JsValue) (key : string) (d : JsValue) :
  NoDup options.*1 ->
  (key, d) ∈ options ->
  fold_left (assign kwargs) options this !! key
  = Some (coalesce (prop kwargs key) d).
Proof.
  revert this. induction options as [|kd options IH]; intros this Hnodup Hin.
  { by apply elem_of_nil in Hin. }
  apply NoDup_cons in Hnodup as [Hfresh Hnodup]. simpl.
  apply elem_of_cons in Hin as [<-|Hin].
  - rewrite fold_assign_other by done. unfold assign. simpl.
    by rewrite lookup_insert_eq.
  - by apply IH.
Qed.

Lemma defaults_NoDup : NoDup defaults.*1.
Proof. apply (bool_decide_unpack _). by vm_compute. Qed.

Lemma defaults_defined :
  Forall (fun kd : string * JsValue => kd.2 <> JUndefined) defaults.
Proof. unfold defaults. repeat (apply Forall_cons; split; [done|]). done. Qed.

Lemma coalesce_idemp x d : coalesce (coalesce x d) d = coalesce x d.
Proof. destruct x; simpl; try done; by destruct d. Qed.

(** X25. Every option of the constructed configuration holds the value
    given for it, also when that value is [0], [false] or an empty string,
    and its default when the value is absent or [null]. *)
Theorem generation_config_option (kwargs : gmap string JsValue)
    (key : string) (d : JsValue) :
  (key, d) ∈ defaults ->
  exists this,
    constructor (value kwargs) = Some this
    /\ this !! key = Some (coalesce (prop kwargs key) d)
    /\ (prop kwargs key <> JUndefined -> prop kwargs key <> JNull ->
        this !! key = Some (prop kwargs key)).
Proof.
  intros Hin. eexists. split; [unfold constructor; reflexivity|].
  rewrite (fold_assign_option _ _ _ key d defaults_NoDup Hin).
  split; [reflexivity|]. intros Hu Hn. by destruct (prop kwargs key).
Qed.

Lemma generation_config_option_witness :
  exists this,
    constructor (value {["max_length" := JNumber (of_Z 0);
                         "top_k" := JNull]})
    = Some this
    /\ this !! "max_length" = Some (JNumber (of_Z 0))
    /\ this !! "top_k" = Some (JNumber (of_Z 50)).
Proof.
  destruct (generation_config_option
              {["max_length" := JNumber (of_Z 0); "top_k" := JNull]}
              "max_length" (JNumber (of_Z 20)))
    as (this & Hthis & Hkey & _).
  { apply list_elem_of_here. }
  destruct (generation_config_option
              {["max_length" := JNumber (of_Z 0); "top_k" := JNull]}
              "top_k" (JNumber (of_Z 50)))
    as (this' & Hthis' & Hkey' & _).
  { do 12 apply list_elem_of_further. apply list_elem_of_here. }
  rewrite Hthis in Hthis'. injection Hthis' as <-.
  exists this. split; [exact Hthis|]. split.
  - rewrite Hkey. vm_compute. reflexivity.
  - rewrite Hkey'. vm_compute. reflexivity.
Defined.

Lemma constructor_value (kwargs this : gmap string JsValue) :
  constructor (value kwargs) = Some this ->
  this = fold_left (assign kwargs) defaults ∅.
Proof.
  unfold constructor. intros Hc.
  exact (eq_sym (f_equal (fun o => default this o) Hc)).
Qed.

Lemma lookup_constructed_iff (kwargs : gmap string JsValue) (key : string) :
  is_Some (fold_left (assign kwargs) defaults ∅ !! key)
  <-> key ∈ defaults.*1.
Proof.
  split.
  - intros Hsome. destruct (decide (key ∈ defaults.*1)) as [|Hout]; [done|].
    rewrite fold_assign_other in Hsome by exact Hout.
    rewrite lookup_empty in Hsome. by destruct Hsome.
  - intros (kd & -> & Hin)%list_elem_of_fmap. destruct kd as [key d].
    rewrite (fold_assign_option _ _ _ key d defaults_NoDup Hin). by eexists.
Qed.

(** X26. The constructed configuration has the 44 options of the
    constructor and no other property: a property of the argument with
    another name, such as [max_initial_timestamp_index] or
    [no_timestamps_token_id], is not carried over. *)
Theorem generation_config_properties (kwargs this : gmap string JsValue) :
  constructor (value kwargs) = Some this ->
  length defaults = 44%nat
  /\ (forall key, is_Some (this !! key) <-> key ∈ defaults.*1)
  /\ this !! "max_initial_timestamp_index" = None
  /\ this !! "no_timestamps_token_id" = None.
Proof.
  intros ->%constructor_value. split; [reflexivity|].
  split; [apply lookup_constructed_iff|].
  split; apply eq_None_not_Some; rewrite lookup_constructed_iff;
    apply (bool_decide_unpack _); vm_compute; exact I.
Qed.

Lemma generation_config_properties_witness :
  exists this,
    constructor (value {["max_initial_timestamp_index" := JNumber (of_Z 1)]})
    = Some this
    /\ this !! "max_initial_timestamp_index" = None.
Proof.
  eexists. split; [unfold constructor; reflexivity|].
  refine (proj1 (proj2 (proj2 (generation_config_properties
            {["max_initial_timestamp_index" := JNumber (of_Z 1)]} _ _)))).
  unfold constructor. reflexivity.
Defined.

(** X27. Constructing a configuration from a constructed configuration
    gives the same configuration. *)
Theorem generation_config_idempotent (kwargs this : gmap string JsValue) :
  constructor (value kwargs) = Some this ->
  constructor (value this) = Some this.
Proof.
  intros ->%constructor_value. unfold constructor. f_equal.
  apply map_eq. intros key.
  destruct (decide (key ∈ defaults.*1)) as [Hin|Hout].
  - apply list_elem_of_fmap in Hin as ([key' d] & -> & Hin).
    change ((key', d).1) with key'.
    rewrite !(fold_assign_option _ _ _ key' d defaults_NoDup Hin).
    unfold prop at 1.
    rewrite (fold_assign_option _ _ _ key' d defaults_NoDup Hin).
    change (default JUndefined (Some ?x)) with x.
    by rewrite coalesce_idemp.
  - by rewrite !fold_assign_other by exact Hout.
Qed.

Lemma generation_config_idempotent_witness :
  exists this,
    constructor (value {["num_beams" := JNumber (of_Z 4)]}) = Some this
    /\ constructor (value this) = Some this.
Proof.
  eexists. split; [unfold constructor; reflexivity|].
  apply (generation_config_idempotent {["num_beams" := JNumber (of_Z 4)]}).
  unfold constructor. reflexivity.
Defined.

(** X28. No option of a constructed configuration is [undefined], and an
    option is [null] only when [null] is its default. *)
Theorem generation_config_never_undefined (kwargs this : gmap string JsValue)
    (key : string) (d v : JsValue) :
  constructor (value kwargs) = Some this ->
  (key, d) ∈ defaults ->
  this !! key = Some v ->
  v <> JUndefined /\ (v = JNull -> d = JNull).
Proof.
  intros ->%constructor_value Hin.
  rewrite (fold_assign_option _ _ _ key d defaults_NoDup Hin).
  intros [= <-].
  pose proof (proj1 (Forall_forall _ _) defaults_defined _ Hin) as Hd.
  change ((key, d).2) with d in Hd. by destruct (prop kwargs key).
Qed.

Lemma generation_config_never_undefined_witness :
  exists this,
    constructor (value {["top_k" := JNull]}) = Some this
    /\ this !! "top_k" = Some (JNumber (of_Z 50))
    /\ JNumber (of_Z 50) <> JUndefined.
Proof.
  assert (("top_k"%string, JNumber (of_Z 50)) ∈ defaults) as Hin.
  { do 12 apply list_elem_of_further. apply list_elem_of_here. }
  assert (fold_left (assign {["top_k" := JNull]}) defaults ∅ !! "top_k"
          = Some (JNumber (of_Z 50))) as Hv.
  { rewrite (fold_assign_option _ _ _ "top_k" (JNumber (of_Z 50))
               defaults_NoDup Hin).
    vm_compute. reflexivity. }
  exists (fold_left (assign {["top_k" := JNull]}) defaults ∅).
  split; [unfold constructor; reflexivity|]. split; [exact Hv|].
  apply (generation_config_never_undefined {["top_k" := JNull]}
           (fold_left (assign {["top_k" := JNull]}) defaults ∅) "top_k"
           (JNumber (of_Z 50)) (JNumber (of_Z 50))).
  - unfold constructor. reflexivity.
  - exact Hin.
  - exact Hv.
Defined.

End generation_config.
